(** * Crystal Orbital Overlap Population: a model of [nac/workflows/workflow_coop.py]

    The development embeds the functions of [workflow_coop.py] and the NumPy
    operations they call, and states the properties of the orbital-index
    construction, the overlap reduction, the COOP contraction, the unit
    conversion and the result table.

    Conventions.
    - Floating-point numbers are idealised as real numbers ([R]); integer
      arrays hold natural numbers (the counts and offsets of the program are
      never negative, and machine-width overflow is not modelled).
    - A one-dimensional array is a list; a two-dimensional array is a record
      of its column count and its rows, so that an array with no row still
      has a shape.
    - A Python exception is a value [Err e] of the [result] type; the
      statements of one function are sequenced with [x <- c ;; k]. *)

From Stdlib Require Import String Ascii.
From Stdlib Require Import List Arith Bool Lia Reals Lra Sorted.
Import ListNotations.

Set Implicit Arguments.

(** ** Exceptions and results *)

(** The exceptions the program can raise are those of Python and NumPy.
    [ConfigurationError] and [SelectionError] are the names the written
    specification uses; no path of the program constructs them. *)
Inductive exception : Type :=
| IndexError
| ValueError
| OSError
| ConfigurationError
| SelectionError.

Inductive result (A : Type) : Type :=
| Ok : A -> result A
| Err : exception -> result A.

Arguments Ok {A} _.
Arguments Err {A} _.

Definition bind {A B : Type} (c : result A) (k : A -> result B) : result B :=
  match c with
  | Ok a => k a
  | Err e => Err e
  end.

Notation "x <- c ;; k" := (bind c (fun x => k))
  (at level 61, c at next level, right associativity).

(** A list comprehension whose body can raise: the elements are evaluated
    from left to right and the first exception ends the evaluation. *)
Fixpoint mapM {A B : Type} (f : A -> result B) (l : list A) : result (list B) :=
  match l with
  | [] => Ok []
  | x :: l' => y <- f x ;; ys <- mapM f l' ;; Ok (y :: ys)
  end.

(** [xs[i]] on a Python list or a one-dimensional array, for [i >= 0]. *)
Definition getitem {A : Type} (xs : list A) (i : nat) : result A :=
  match nth_error xs i with
  | Some x => Ok x
  | None => Err IndexError
  end.

(** ** Strings: [str.lower] and substrings *)

Module Str.

Open Scope string_scope.

(** [str.lower] on the ASCII range: the letters [A]..[Z] go to [a]..[z],
    every other character is kept. *)
Definition lower_ascii (c : ascii) : ascii :=
  let n := nat_of_ascii c in
  if ((65 <=? n) && (n <=? 90))%nat then ascii_of_nat (n + 32) else c.

Fixpoint lower (s : string) : string :=
  match s with
  | EmptyString => EmptyString
  | String c s' => String (lower_ascii c) (lower s')
  end.

(** ASCII text: the strings on which [lower] is Python's [str.lower]. *)
Definition is_ascii (s : string) : Prop :=
  Forall (fun c => nat_of_ascii c < 128) (list_ascii_of_string s).

(** [sub] occurs in [s] at some position. *)
Definition Substring (sub s : string) : Prop :=
  exists pre post, s = (pre ++ sub ++ post)%string.

(** The matching rule in the specification's words: the label is a
    substring of the atom label when the case of both is ignored.  The
    program does not use it; it serves to state what the specification
    says. *)
Definition ci_substring (label s : string) : Prop :=
  Substring (lower label) (lower s).

End Str.

(** ** NumPy arrays *)

Module Np.

(** A two-dimensional array of reals of shape [(length rows, ncols)]. *)
Record matrix : Type := Matrix { ncols : nat; rows : list (list R) }.

Definition nrows (M : matrix) : nat := length (rows M).

Definition shape (M : matrix) : nat * nat := (nrows M, ncols M).

(** [M[i, j]]. *)
Definition entry (M : matrix) (i j : nat) : R := nth j (nth i (rows M) []) 0%R.

(** [M] is an array of shape [(n, m)]: every row has [m] entries. *)
Definition has_shape (M : matrix) (n m : nat) : Prop :=
  nrows M = n /\ ncols M = m /\ Forall (fun r => length r = m) (rows M).

(** [np.cumsum] on integers, with the running total made explicit. *)
Fixpoint cumsum_from (acc : nat) (xs : list nat) : list nat :=
  match xs with
  | [] => []
  | x :: xs' => (acc + x) :: cumsum_from (acc + x) xs'
  end.

Definition cumsum (xs : list nat) : list nat := cumsum_from 0 xs.

(** [np.arange(n) + a]. *)
Definition arange_plus (n a : nat) : list nat := map (fun j => j + a) (seq 0 n).

(** [a[1:] = v] on a one-dimensional array [a] of length [n + 1] whose first
    entry is [a0]: [v] must have length [n], or length 1, in which case it is
    broadcast; anything else is a [ValueError]. *)
Definition assign_tail (a0 : nat) (n : nat) (v : list nat) : result (list nat) :=
  if length v =? n then Ok (a0 :: v)
  else match v with
       | [x] => Ok (a0 :: repeat x n)
       | _ => Err ValueError
       end.

(** [np.reshape(arrs, n)] on a Python list of one-dimensional integer
    arrays.  The list is first converted to an array: rows of one common
    length [L] give a [k x L] array, which is flattened in row-major order
    when [k * L = n]; rows of different lengths cannot be converted, and a
    size that does not match cannot be reshaped (a [ValueError] in both
    cases).  Releases of NumPy before 1.24 convert ragged rows to an array
    of [k] objects instead, whose reshape fails in the same way unless the
    requested size is [k]. *)
Definition reshape_1d (arrs : list (list nat)) (n : nat) : result (list nat) :=
  match arrs with
  | [] => if n =? 0 then Ok [] else Err ValueError
  | a :: rest =>
      if forallb (fun b => length b =? length a) rest then
        if length arrs * length a =? n then Ok (concat arrs) else Err ValueError
      else Err ValueError
  end.

(** [v[idx]] on a one-dimensional array, [idx] an array of indices. *)
Definition take (v : list R) (idx : list nat) : result (list R) :=
  if forallb (fun i => i <? length v) idx
  then Ok (map (fun i => nth i v 0%R) idx)
  else Err IndexError.

(** [M[idx, :]]. *)
Definition take_rows (M : matrix) (idx : list nat) : result matrix :=
  if forallb (fun i => i <? nrows M) idx
  then Ok (Matrix (ncols M) (map (fun i => nth i (rows M) []) idx))
  else Err IndexError.

(** [M[:, idx]]. *)
Definition take_cols (M : matrix) (idx : list nat) : result matrix :=
  if forallb (fun j => j <? ncols M) idx
  then Ok (Matrix (length idx)
                  (map (fun r => map (fun j => nth j r 0%R) idx) (rows M)))
  else Err IndexError.

(** [M[:, k]] as a one-dimensional array. *)
Definition column (M : matrix) (k : nat) : list R :=
  map (fun r => nth k r 0%R) (rows M).

(** [M.T]. *)
Definition transpose (M : matrix) : matrix :=
  Matrix (nrows M)
         (map (fun j => map (fun i => entry M i j) (seq 0 (nrows M)))
              (seq 0 (ncols M))).

(** [np.tensordot(u, v, 0)]: the outer product. *)
Definition tensordot0 (u v : list R) : matrix :=
  Matrix (length v) (map (fun x => map (fun y => (x * y)%R) v) u).

(** The length of one axis of a broadcast result. *)
Definition broadcast_dim (n m : nat) : result nat :=
  if n =? m then Ok n
  else if n =? 1 then Ok m
  else if m =? 1 then Ok n
  else Err ValueError.

(** The entry a broadcast array has at [(i, j)]: an axis of length 1 is
    read at position 0 whatever the index. *)
Definition entry_bc (M : matrix) (i j : nat) : R :=
  entry M (if nrows M =? 1 then 0%nat else i) (if ncols M =? 1 then 0%nat else j).

(** [A * B] on two-dimensional arrays, with NumPy's broadcasting. *)
Definition multiply (A B : matrix) : result matrix :=
  r <- broadcast_dim (nrows A) (nrows B) ;;
  c <- broadcast_dim (ncols A) (ncols B) ;;
  Ok (Matrix c (map (fun i => map (fun j => (entry_bc A i j * entry_bc B i j)%R)
                                  (seq 0 c))
                    (seq 0 r))).

Definition sum_list (xs : list R) : R := fold_right Rplus 0%R xs.

(** [np.sum(M)]: the sum of all entries. *)
Definition sum (M : matrix) : R := sum_list (map sum_list (rows M)).

(** [np.apply_along_axis(f, 0, M)] for a function [f] that returns a
    scalar: [f] is applied to every column, from the first to the last.
    NumPy refuses an array with no column ("Cannot apply_along_axis when any
    iteration dimensions are 0"). *)
Definition apply_along_axis0 (f : list R -> result R) (M : matrix)
  : result (list R) :=
  match ncols M with
  | O => Err ValueError
  | S _ => mapM (fun k => f (column M k)) (seq 0 (ncols M))
  end.

(** [np.zeros((n, m))]. *)
Definition zeros (n m : nat) : matrix := Matrix m (repeat (repeat 0%R m) n).

(** The list [l] with position [j] replaced by [x] (unchanged when [j] is
    out of range). *)
Fixpoint set_nth (l : list R) (j : nat) (x : R) : list R :=
  match l, j with
  | [], _ => []
  | _ :: l', O => x :: l'
  | y :: l', S j' => y :: set_nth l' j' x
  end.

Fixpoint set_column_rows (rs : list (list R)) (j : nat) (v : list R)
  : list (list R) :=
  match rs, v with
  | r :: rs', x :: v' => set_nth r j x :: set_column_rows rs' j v'
  | _, _ => rs
  end.

(** [M[:, j] = v] for [j] a valid column: [v] must have one entry per row,
    or a single entry, which is broadcast. *)
Definition set_column (M : matrix) (j : nat) (v : list R) : result matrix :=
  if length v =? nrows M then Ok (Matrix (ncols M) (set_column_rows (rows M) j v))
  else match v with
       | [x] => Ok (Matrix (ncols M) (map (fun r => set_nth r j x) (rows M)))
       | _ => Err ValueError
       end.

End Np.

(** ** The program *)

Import Np.

(** The atoms of [mol] (line 35) are the named tuples [(symbol, xyz)] that
    the geometry parser [readXYZ] of the [qmflows] package returns: the
    element symbol, which the parser stores in lower case, and the three
    coordinates. *)
Record AtomXYZ : Type := Atom { symbol : string; xyz : R * R * R }.

Definition atom_list : Type := list AtomXYZ.

(** An atom at the origin; the coordinates play no part in the selection. *)
Definition atom (s : string) : AtomXYZ := Atom s (0, 0, 0)%R.

(** The symbols of the atoms, in order. *)
Definition symbols (mol : atom_list) : list string := map symbol mol.

(** [x in s] for a string [x] and a named tuple [s]: [x] equals one of the
    fields of [s].  A string never equals the tuple of coordinates, so the
    test is equality with the symbol. *)
Definition tuple_contains (x : string) (s : AtomXYZ) : bool :=
  String.eqb x (symbol s).

(** Modelled from the spec: the value of
    [physical_constants['Hartree energy in eV'][0]], which the program reads
    from the table of an external package; this is the CODATA 2018 entry,
    27.211386245988. *)
Definition h2ev : R := (27211386245988 / 1000000000000)%R.

(** The file system as the program sees it: which paths can be written, and
    the table last written to each path.  The textual rendering of the
    numbers is not modelled. *)
Record filesystem : Type := Filesystem {
  writable : string -> bool;
  files : list (string * matrix)
}.

(** [np.savetxt(fname, X)]. *)
Definition savetxt (fname : string) (X : matrix) (fs : filesystem)
  : result filesystem :=
  if writable fs fname
  then Ok (Filesystem (writable fs) ((fname, X) :: files fs))
  else Err OSError.

(** [enumerate(xs)]. *)
Definition enumerate {A : Type} (xs : list A) : list (nat * A) :=
  combine (seq 0 (length xs)) xs.

(** [[i for i, s in enumerate(mol) if element.lower() in s]]. *)
Definition element_index (mol : atom_list) (element : string) : list nat :=
  map fst
      (filter (fun p => tuple_contains (Str.lower element) (snd p))
              (enumerate mol)).

(** [atom_indices = np.zeros(len(mol) + 1, dtype='int')] followed by
    [atom_indices[1:] = np.cumsum(sphericals)]. *)
Definition make_atom_indices (mol : atom_list) (sphericals : list nat)
  : result (list nat) :=
  assign_tail 0 (length mol) (cumsum sphericals).

(** The orbital indices of one element: the list of the ranges
    [np.arange(sphericals[i]) + atom_indices[i]] of the matched atoms,
    reshaped to [len(element_index) * sphericals[element_index[0]]]
    entries. *)
Definition orbital_ind (sphericals atom_indices element_index : list nat)
  : result (list nat) :=
  ranges <- mapM (fun i => s <- getitem sphericals i ;;
                           a <- getitem atom_indices i ;;
                           Ok (arange_plus s a))
                 element_index ;;
  first <- getitem element_index 0 ;;
  s0 <- getitem sphericals first ;;
  reshape_1d ranges (length element_index * s0).

(** The first half of [compute_overlap_and_atomic_orbitals]: the two flat
    orbital-index sequences. *)
Definition orbital_index_sets (sphericals : list nat) (mol : atom_list)
           (element_1 element_2 : string) : result (list nat * list nat) :=
  let element_1_index := element_index mol element_1 in
  let element_2_index := element_index mol element_2 in
  atom_indices <- make_atom_indices mol sphericals ;;
  el_1_orbital_ind <- orbital_ind sphericals atom_indices element_1_index ;;
  el_2_orbital_ind <- orbital_ind sphericals atom_indices element_2_index ;;
  Ok (el_1_orbital_ind, el_2_orbital_ind).

(** The second half: [overlap[el_1_orbital_ind, :]], then
    [overlap_reduced[:, el_2_orbital_ind]]. *)
Definition reduce_overlap (overlap : matrix) (el_1_orbital_ind el_2_orbital_ind : list nat)
  : result matrix :=
  overlap_reduced <- take_rows overlap el_1_orbital_ind ;;
  take_cols overlap_reduced el_2_orbital_ind.

(** [compute_overlap_and_atomic_orbitals(mol, config)].  [overlap] and
    [sphericals] are what [compute_matrix_multipole] and
    [number_spherical_functions_per_atom] returned; [element_1] and
    [element_2] are [config["coop_elements"][0]] and [[1]]. *)
Definition compute_overlap_and_atomic_orbitals
           (overlap : matrix) (sphericals : list nat) (mol : atom_list)
           (element_1 element_2 : string)
  : result (list nat * list nat * matrix) :=
  inds <- orbital_index_sets sphericals mol element_1 element_2 ;;
  overlap_reduced <- reduce_overlap overlap (fst inds) (snd inds) ;;
  Ok (fst inds, snd inds, overlap_reduced).

(** The inner function of [compute_coop], applied to one column of the
    coefficient matrix. *)
Definition coop_func (atomic_orbitals : list R) (overlap_reduced : matrix)
           (el_1_orbital_ind el_2_orbital_ind : list nat) : result R :=
  c1 <- take atomic_orbitals el_1_orbital_ind ;;
  c2 <- take atomic_orbitals el_2_orbital_ind ;;
  prod <- multiply (tensordot0 c1 c2) overlap_reduced ;;
  Ok (sum prod).

(** [compute_coop(atomic_orbitals, overlap_reduced, el_1_orbital_ind,
    el_2_orbital_ind)]. *)
Definition compute_coop (atomic_orbitals overlap_reduced : matrix)
           (el_1_orbital_ind el_2_orbital_ind : list nat) : result (list R) :=
  apply_along_axis0
    (fun col => coop_func col overlap_reduced el_1_orbital_ind el_2_orbital_ind)
    atomic_orbitals.

(** [get_eigenvalues_coefficients(config)], given the two arrays retrieved
    from the data store. *)
Definition get_eigenvalues_coefficients (coefficients : matrix) (eigenvalues : list R)
  : matrix * list R :=
  let atomic_orbitals := coefficients in
  let energies := eigenvalues in
  let energies := map (fun e => (e * h2ev)%R) energies in
  (atomic_orbitals, energies).

(** [print_coop(energies, coop)]. *)
Definition print_coop (energies coop : list R) (fs : filesystem)
  : result (matrix * filesystem) :=
  let result_coop := zeros (length coop) 2 in
  result_coop <- set_column result_coop 0 energies ;;
  result_coop <- set_column result_coop 1 coop ;;
  fs' <- savetxt "COOP.txt" result_coop fs ;;
  Ok (result_coop, fs').

(** [workflow_crystal_orbital_overlap_population(config)], from the point
    where the data store holds the coefficients and the eigenvalues; [mol]
    is the list of atoms [readXYZ] returned. *)
Definition workflow_crystal_orbital_overlap_population
           (coefficients : matrix) (eigenvalues : list R)
           (overlap : matrix) (sphericals : list nat) (mol : atom_list)
           (element_1 element_2 : string) (fs : filesystem)
  : result (matrix * filesystem) :=
  let (atomic_orbitals, energies) :=
    get_eigenvalues_coefficients coefficients eigenvalues in
  r <- compute_overlap_and_atomic_orbitals overlap sphericals mol
                                           element_1 element_2 ;;
  let '(el_1_orbital_ind, el_2_orbital_ind, overlap_reduced) := r in
  coop <- compute_coop atomic_orbitals overlap_reduced
                       el_1_orbital_ind el_2_orbital_ind ;;
  print_coop energies coop fs.

(** ** Notions used in the statements *)

(** The test the program applies to atom [i] of [mol]. *)
Definition matches (mol : atom_list) (element : string) (i : nat) : bool :=
  String.eqb (Str.lower element) (nth i (symbols mol) EmptyString).

(** The atoms listed in [idx] all carry the same number of orbitals. *)
Definition uniform (sphericals idx : list nat) : Prop :=
  forall i j, In i idx -> In j idx -> nth i sphericals 0 = nth j sphericals 0.

(** The half-open range [[offset[i], offset[i] + sphericals[i])] of atom [i]. *)
Definition orbital_range (sphericals offsets : list nat) (i : nat) : list nat :=
  seq (nth i offsets 0) (nth i sphericals 0).

(** [M] equals its transpose, entry by entry. *)
Definition symmetric (M : matrix) : Prop :=
  forall i j, entry M i j = entry M j i.

(** The double sum of the specification:
    [sum over a < n of f a], used for both indices. *)
Definition big_sum (n : nat) (f : nat -> R) : R :=
  sum_list (map f (seq 0 n)).

(** ** Sanity checks on concrete inputs *)

Open Scope string_scope.

Example element_index_cdse :
  element_index [atom "cd"; atom "se"; atom "cd"; atom "se"] "Se" = [1; 3].
Proof. reflexivity. Qed.

Example element_index_whole_symbol :
  element_index [atom "cd"; atom "c"] "C" = [1]
  /\ element_index [atom "cd"; atom "c"] "Cd" = [0].
Proof. split; reflexivity. Qed.

Example orbital_index_sets_cdse :
  orbital_index_sets [3; 2; 3; 2] [atom "cd"; atom "se"; atom "cd"; atom "se"] "Cd" "Se"
  = Ok ([0; 1; 2; 5; 6; 7], [3; 4; 8; 9]).
Proof. reflexivity. Qed.

Example orbital_index_sets_unmatched :
  orbital_index_sets [3; 2] [atom "cd"; atom "se"] "Cd" "Te" = Err IndexError.
Proof. reflexivity. Qed.

Example orbital_index_sets_ragged :
  orbital_index_sets [3; 2; 4] [atom "cd"; atom "se"; atom "cd"] "Cd" "Se" = Err ValueError.
Proof. reflexivity. Qed.

Close Scope string_scope.

(** ** Results: the error monad *)

Lemma bind_Ok_inv {A B : Type} (c : result A) (k : A -> result B) (b : B) :
  bind c k = Ok b -> exists a, c = Ok a /\ k a = Ok b.
Proof.
  destruct c as [a | e]; simpl; intros H.
  - exists a. split; [reflexivity | exact H].
  - discriminate H.
Qed.

Lemma mapM_Ok {A B : Type} (f : A -> result B) (g : A -> B) (l : list A) :
  (forall x, In x l -> f x = Ok (g x)) -> mapM f l = Ok (map g l).
Proof.
  induction l as [| x l IH]; intros H; simpl.
  - reflexivity.
  - rewrite (H x (or_introl eq_refl)). simpl.
    rewrite IH by (intros y Hy; apply H; right; exact Hy).
    reflexivity.
Qed.

Lemma getitem_nth {A : Type} (xs : list A) (i : nat) (d : A) :
  i < length xs -> getitem xs i = Ok (nth i xs d).
Proof.
  intros H. unfold getitem.
  rewrite (nth_error_nth' xs d H). reflexivity.
Qed.

(** ** Strings: lower-casing *)

Module StrFacts.

Import Str.

Lemma lower_ascii_idempotent (c : ascii) :
  lower_ascii (lower_ascii c) = lower_ascii c.
Proof.
  destruct c as [[] [] [] [] [] [] [] []]; reflexivity.
Qed.

Lemma lower_idempotent (s : string) : lower (lower s) = lower s.
Proof.
  induction s as [| c s IH]; simpl; [| rewrite lower_ascii_idempotent, IH];
    reflexivity.
Qed.

End StrFacts.

(** ** The atoms of one element *)

Section ElementIndex.

Variable mol : atom_list.
Variable element : string.

Lemma enumerate_filter_from {A : Type} (p : A -> bool) (l : list A)
      (d : A) (k : nat) :
  map fst (filter (fun q => p (snd q)) (combine (seq k (length l)) l))
  = filter (fun i => p (nth (i - k) l d)) (seq k (length l)).
Proof.
  revert k. induction l as [| a l IH]; intros k.
  - reflexivity.
  - cbn [length seq combine filter snd].
    rewrite Nat.sub_diag. cbn [nth].
    assert (E : filter (fun i => p (nth (i - k) (a :: l) d))
                       (seq (S k) (length l))
                = filter (fun i => p (nth (i - S k) l d))
                         (seq (S k) (length l))).
    { apply filter_ext_in. intros i Hi. apply in_seq in Hi.
      replace (i - k) with (S (i - S k)) by lia. reflexivity. }
    destruct (p a); cbn [map fst]; rewrite IH; [f_equal |]; symmetry; exact E.
Qed.

Lemma element_index_filter :
  element_index mol element = filter (matches mol element) (seq 0 (length mol)).
Proof.
  unfold element_index, enumerate.
  rewrite (enumerate_filter_from
             (fun s => tuple_contains (Str.lower element) s) mol
             (Atom EmptyString (0, 0, 0)%R) 0).
  apply filter_ext. intros i. unfold matches, tuple_contains, symbols.
  rewrite Nat.sub_0_r.
  rewrite <- (map_nth symbol mol (Atom EmptyString (0, 0, 0)%R) i).
  reflexivity.
Qed.

Lemma element_index_In (i : nat) :
  In i (element_index mol element)
  <-> i < length mol /\ matches mol element i = true.
Proof.
  rewrite element_index_filter, filter_In, in_seq. intuition lia.
Qed.

(** An atom is selected when its symbol is the lower-cased label. *)
Lemma element_index_symbol (i : nat) :
  In i (element_index mol element)
  <-> i < length mol /\ nth i (symbols mol) EmptyString = Str.lower element.
Proof.
  rewrite element_index_In. unfold matches. rewrite String.eqb_eq.
  intuition congruence.
Qed.

Lemma filter_seq_sorted (p : nat -> bool) (n k : nat) :
  StronglySorted lt (filter p (seq k n)).
Proof.
  revert k. induction n as [| n IH]; intros k; simpl.
  - constructor.
  - destruct (p k); [| apply IH].
    constructor; [apply IH |].
    apply Forall_forall. intros x Hx.
    apply filter_In in Hx. destruct Hx as [Hx _].
    apply in_seq in Hx. lia.
Qed.

Lemma element_index_sorted : StronglySorted lt (element_index mol element).
Proof. rewrite element_index_filter. apply filter_seq_sorted. Qed.

End ElementIndex.

(** ** The offset table *)

Section Offsets.

Lemma cumsum_from_length (acc : nat) (xs : list nat) :
  length (cumsum_from acc xs) = length xs.
Proof.
  revert acc. induction xs as [| x xs IH]; intros acc; simpl; [| rewrite IH]; reflexivity.
Qed.

Lemma cumsum_from_step (acc : nat) (xs : list nat) (i : nat) :
  i < length xs ->
  nth (S i) (acc :: cumsum_from acc xs) 0
  = nth i (acc :: cumsum_from acc xs) 0 + nth i xs 0.
Proof.
  revert acc i. induction xs as [| x xs IH]; intros acc i H; simpl in H.
  - lia.
  - destruct i as [| i].
    + reflexivity.
    + change (nth (S i) ((acc + x) :: cumsum_from (acc + x) xs) 0
              = nth i ((acc + x) :: cumsum_from (acc + x) xs) 0 + nth i xs 0).
      apply IH. lia.
Qed.

Lemma cumsum_from_last (acc : nat) (xs : list nat) :
  last (acc :: cumsum_from acc xs) 0 = acc + list_sum xs.
Proof.
  revert acc. induction xs as [| x xs IH]; intros acc.
  - simpl. lia.
  - change (last ((acc + x) :: cumsum_from (acc + x) xs) 0
            = acc + (x + list_sum xs)).
    rewrite IH. lia.
Qed.

Lemma offsets_monotone (xs : list nat) (i j : nat) :
  i <= j -> j <= length xs ->
  nth i (0 :: cumsum xs) 0 <= nth j (0 :: cumsum xs) 0.
Proof.
  intros Hij Hj. induction Hij as [| j Hij IH].
  - lia.
  - unfold cumsum in *. rewrite cumsum_from_step by lia.
    specialize (IH ltac:(lia)). lia.
Qed.

Lemma make_atom_indices_Ok (mol : atom_list) (sphericals : list nat) :
  length sphericals = length mol ->
  make_atom_indices mol sphericals = Ok (0 :: cumsum sphericals).
Proof.
  intros H. unfold make_atom_indices, assign_tail, cumsum.
  rewrite cumsum_from_length, H, Nat.eqb_refl. reflexivity.
Qed.

End Offsets.

(** ** The orbital indices of one element *)

Section OrbitalInd.

Variable sphericals : list nat.
Variable offsets : list nat.

Lemma arange_plus_from (a k n : nat) :
  map (fun j => j + a) (seq k n) = seq (k + a) n.
Proof.
  revert k. induction n as [| n IH]; intros k; simpl.
  - reflexivity.
  - rewrite IH. reflexivity.
Qed.

Lemma arange_plus_seq (n a : nat) : arange_plus n a = seq a n.
Proof. unfold arange_plus. apply (arange_plus_from a 0 n). Qed.

Lemma forallb_map {A B : Type} (f : A -> B) (p : B -> bool) (l : list A) :
  forallb p (map f l) = forallb (fun x => p (f x)) l.
Proof.
  induction l as [| x l IH]; simpl; [| rewrite IH]; reflexivity.
Qed.

Lemma forallb_pointwise {A : Type} (p q : A -> bool) (l : list A) :
  (forall x, p x = q x) -> forallb p l = forallb q l.
Proof.
  intros E. induction l as [| x l IH]; simpl; [| rewrite E, IH]; reflexivity.
Qed.

Lemma orbital_ind_empty : orbital_ind sphericals offsets [] = Err IndexError.
Proof. reflexivity. Qed.

(** What [orbital_ind] computes on atoms that exist. *)
Lemma orbital_ind_cases (i0 : nat) (rest : list nat) :
  (forall i, In i (i0 :: rest) -> i < length sphericals /\ i < length offsets) ->
  orbital_ind sphericals offsets (i0 :: rest)
  = if forallb (fun i => nth i sphericals 0 =? nth i0 sphericals 0) rest
    then Ok (concat (map (orbital_range sphericals offsets) (i0 :: rest)))
    else Err ValueError.
Proof.
  intros Hin. unfold orbital_ind.
  rewrite (mapM_Ok _ (orbital_range sphericals offsets)).
  2:{ intros i Hi. destruct (Hin i Hi) as [H1 H2].
      rewrite (getitem_nth sphericals 0 H1). simpl.
      rewrite (getitem_nth offsets 0 H2). simpl.
      rewrite arange_plus_seq. reflexivity. }
  destruct (Hin i0 (or_introl eq_refl)) as [H0 _].
  cbn [bind getitem nth_error].
  rewrite (getitem_nth sphericals 0 H0).
  cbn [bind reshape_1d map].
  rewrite forallb_map.
  replace (forallb (fun x => length (orbital_range sphericals offsets x)
                             =? length (orbital_range sphericals offsets i0)) rest)
    with (forallb (fun i => nth i sphericals 0 =? nth i0 sphericals 0) rest).
  2:{ apply forallb_pointwise. intros i. unfold orbital_range.
      rewrite !length_seq. reflexivity. }
  destruct (forallb _ rest); [| reflexivity].
  replace (length (orbital_range sphericals offsets i0))
    with (nth i0 sphericals 0) by (unfold orbital_range; now rewrite length_seq).
  cbn [length]. rewrite length_map, Nat.eqb_refl. reflexivity.
Qed.

Lemma uniform_forallb (i0 : nat) (rest : list nat) :
  uniform sphericals (i0 :: rest) <->
  forallb (fun i => nth i sphericals 0 =? nth i0 sphericals 0) rest = true.
Proof.
  rewrite forallb_forall. split.
  - intros U i Hi. apply Nat.eqb_eq. apply U; [right; exact Hi | left; reflexivity].
  - intros F i j Hi Hj.
    assert (E : forall x, In x (i0 :: rest) ->
                          nth x sphericals 0 = nth i0 sphericals 0).
    { intros x [-> | Hx]; [reflexivity | apply Nat.eqb_eq, F, Hx]. }
    rewrite (E i Hi), (E j Hj). reflexivity.
Qed.

Lemma orbital_ind_uniform (idx : list nat) :
  (forall i, In i idx -> i < length sphericals /\ i < length offsets) ->
  idx <> [] ->
  uniform sphericals idx ->
  orbital_ind sphericals offsets idx
  = Ok (concat (map (orbital_range sphericals offsets) idx)).
Proof.
  intros Hin Hne U. destruct idx as [| i0 rest]; [contradiction |].
  rewrite (orbital_ind_cases Hin).
  apply uniform_forallb in U. rewrite U. reflexivity.
Qed.


(** On atoms that exist, the only exceptions are those of an empty match
    list and of a ragged list of ranges. *)
Lemma orbital_ind_errors (idx : list nat) (e : exception) :
  (forall i, In i idx -> i < length sphericals /\ i < length offsets) ->
  orbital_ind sphericals offsets idx = Err e ->
  e = IndexError \/ e = ValueError.
Proof.
  intros Hin H. destruct idx as [| i0 rest].
  - rewrite orbital_ind_empty in H. left. congruence.
  - rewrite (orbital_ind_cases Hin) in H.
    destruct (forallb _ rest); [discriminate | right; congruence].
Qed.

End OrbitalInd.

(** ** The element selector *)

Section Selector.

Variable mol : atom_list.
Variable sphericals : list nat.
Hypothesis same_length : length sphericals = length mol.

Lemma element_index_in_range (element : string) (i : nat) :
  In i (element_index mol element) ->
  i < length sphericals /\ i < length (0 :: cumsum sphericals).
Proof.
  intros H. apply element_index_In in H. destruct H as [H _].
  unfold cumsum. cbn [length]. rewrite cumsum_from_length. lia.
Qed.

Lemma orbital_index_sets_unfold (element_1 element_2 : string) :
  orbital_index_sets sphericals mol element_1 element_2
  = (el_1 <- orbital_ind sphericals (0 :: cumsum sphericals)
                         (element_index mol element_1) ;;
     el_2 <- orbital_ind sphericals (0 :: cumsum sphericals)
                         (element_index mol element_2) ;;
     Ok (el_1, el_2)).
Proof.
  unfold orbital_index_sets.
  rewrite (make_atom_indices_Ok mol sphericals same_length). reflexivity.
Qed.

Lemma orbital_ind_selected_errors (element : string) (e : exception) :
  orbital_ind sphericals (0 :: cumsum sphericals) (element_index mol element)
  = Err e ->
  e = IndexError \/ e = ValueError.
Proof.
  apply orbital_ind_errors. apply element_index_in_range.
Qed.

End Selector.


Lemma compute_overlap_Err_of_sets (overlap : matrix) (sphericals : list nat)
      (mol : atom_list) (element_1 element_2 : string) (e : exception) :
  orbital_index_sets sphericals mol element_1 element_2 = Err e ->
  compute_overlap_and_atomic_orbitals overlap sphericals mol element_1 element_2
  = Err e.
Proof.
  intros H. unfold compute_overlap_and_atomic_orbitals. rewrite H. reflexivity.
Qed.

(** ** Properties of the index construction *)

Unset Implicit Arguments.
Open Scope string_scope.

(** C6. For an atom list and a sphericals sequence of the same length, the
    offset table is built without error, has [len(mol) + 1] entries, starts
    at 0, is non-decreasing, grows by [sphericals[i]] from entry [i] to entry
    [i + 1], and ends with the sum of all sphericals. *)
Theorem offset_table_spec (mol : atom_list) (sphericals : list nat) :
  length sphericals = length mol ->
  exists offsets,
    make_atom_indices mol sphericals = Ok offsets
    /\ length offsets = length mol + 1
    /\ nth 0 offsets 0 = 0
    /\ (forall i j, i <= j -> j <= length mol ->
                    nth i offsets 0 <= nth j offsets 0)
    /\ (forall i, i < length mol ->
                  nth (i + 1) offsets 0 = nth i offsets 0 + nth i sphericals 0
                  /\ nth (i + 1) offsets 0 - nth i offsets 0 = nth i sphericals 0)
    /\ last offsets 0 = list_sum sphericals.
Proof.
  intros H. exists (0 :: cumsum sphericals).
  split; [apply make_atom_indices_Ok; exact H |].
  split; [unfold cumsum; cbn [length]; rewrite cumsum_from_length; lia |].
  split; [reflexivity |].
  split; [intros i j Hij Hj; apply offsets_monotone; lia |].
  split.
  - intros i Hi. rewrite Nat.add_1_r. unfold cumsum.
    rewrite cumsum_from_step by lia. split; lia.
  - unfold cumsum. rewrite cumsum_from_last. reflexivity.
Qed.

Lemma offset_table_spec_witness :
  exists offsets,
    make_atom_indices [atom "cd"; atom "se"; atom "cd"] [3; 2; 3] = Ok offsets
    /\ length offsets = 3 + 1
    /\ nth 0 offsets 0 = 0
    /\ (forall i j, i <= j -> j <= 3 -> nth i offsets 0 <= nth j offsets 0)
    /\ (forall i, i < 3 ->
                  nth (i + 1) offsets 0 = nth i offsets 0 + nth i [3; 2; 3] 0
                  /\ nth (i + 1) offsets 0 - nth i offsets 0 = nth i [3; 2; 3] 0)
    /\ last offsets 0 = list_sum [3; 2; 3].
Proof.
  apply (offset_table_spec [atom "cd"; atom "se"; atom "cd"] [3; 2; 3]). reflexivity.
Defined.

(** C4, as the program has it. The atoms collected for a label are exactly
    the indices [i], in increasing order, of the atoms whose symbol equals
    the lower-cased label: the whole symbol is compared, not a part of it.
    On atoms whose symbols are in lower case, as the parser stores them,
    this is equality of symbol and label when case is ignored.  When at
    least one atom matches and the matched atoms share one sphericals
    value, the orbital indices are the ranges
    [[offset[i], offset[i] + sphericals[i])] of the matched atoms,
    concatenated in match order. *)
Theorem element_selector_spec (mol : atom_list) (sphericals : list nat)
        (element : string) :
  Str.is_ascii element ->
  length sphericals = length mol ->
  StronglySorted lt (element_index mol element)
  /\ (forall i, In i (element_index mol element)
                <-> i < length mol
                    /\ nth i (symbols mol) "" = Str.lower element)
  /\ (Forall (fun a => Str.lower (symbol a) = symbol a) mol ->
      forall i, In i (element_index mol element)
                <-> i < length mol
                    /\ Str.lower (nth i (symbols mol) "") = Str.lower element)
  /\ (element_index mol element <> [] ->
      uniform sphericals (element_index mol element) ->
      exists offsets,
        make_atom_indices mol sphericals = Ok offsets
        /\ orbital_ind sphericals offsets (element_index mol element)
           = Ok (concat (map (orbital_range sphericals offsets)
                             (element_index mol element)))
        /\ forall i o, In o (orbital_range sphericals offsets i)
                       <-> nth i offsets 0 <= o
                           < nth i offsets 0 + nth i sphericals 0).
Proof.
  intros _ Hlen.
  split; [apply element_index_sorted |].
  split; [apply element_index_symbol |].
  split.
  - intros Hlow i. rewrite element_index_symbol.
    split; intros [Hi E]; (split; [exact Hi |]).
    + rewrite E. apply StrFacts.lower_idempotent.
    + rewrite <- E. symmetry.
      unfold symbols.
      rewrite (nth_indep (map symbol mol) "" (symbol (atom "")))
        by (rewrite length_map; exact Hi).
      rewrite map_nth.
      rewrite Forall_forall in Hlow. apply Hlow. apply nth_In. exact Hi.
  - intros Hne U. exists (0 :: cumsum sphericals).
    split; [apply make_atom_indices_Ok; exact Hlen |].
    split.
    + apply orbital_ind_uniform; try assumption.
      intros i. apply element_index_in_range. exact Hlen.
    + intros i o. unfold orbital_range. rewrite in_seq. reflexivity.
Qed.

Lemma element_selector_spec_witness :
  element_index [atom "cd"; atom "c"; atom "cd"] "Cd" = [0; 2]
  /\ StronglySorted lt (element_index [atom "cd"; atom "c"; atom "cd"] "Cd")
  /\ (In 2 (element_index [atom "cd"; atom "c"; atom "cd"] "Cd")
      <-> 2 < 3 /\ "cd" = Str.lower "Cd")
  /\ (In 1 (element_index [atom "cd"; atom "c"; atom "cd"] "Cd")
      <-> 1 < 3 /\ Str.lower "c" = Str.lower "Cd")
  /\ exists offsets,
      make_atom_indices [atom "cd"; atom "c"; atom "cd"] [3; 2; 3] = Ok offsets
      /\ orbital_ind [3; 2; 3] offsets
                     (element_index [atom "cd"; atom "c"; atom "cd"] "Cd")
         = Ok (concat (map (orbital_range [3; 2; 3] offsets)
                           (element_index [atom "cd"; atom "c"; atom "cd"] "Cd"))).
Proof.
  destruct (element_selector_spec [atom "cd"; atom "c"; atom "cd"] [3; 2; 3]
                                  "Cd")
    as (Hsorted & Hin & Hci & Hexp);
    [repeat constructor; simpl; lia | reflexivity |].
  split; [reflexivity |].
  split; [exact Hsorted |].
  split; [exact (Hin 2) |].
  split; [apply (Hci ltac:(repeat constructor) 1) |].
  destruct Hexp as (offsets & Hoff & Hind & _).
  - discriminate.
  - intros i j Hi Hj. simpl in Hi, Hj.
    destruct Hi as [<- | [<- | []]]; destruct Hj as [<- | [<- | []]]; reflexivity.
  - exists offsets. split; [exact Hoff | exact Hind].
Defined.

(** C4 as written fails: the label "C" is a substring of the symbol of the
    cadmium atom, whatever the case, yet the program collects the carbon
    atom only. *)
Lemma element_selector_substring_counterexample :
  Str.ci_substring "C" (nth 0 (symbols [atom "cd"; atom "c"]) "")
  /\ 0 < length [atom "cd"; atom "c"]
  /\ element_index [atom "cd"; atom "c"] "C" = [1].
Proof.
  split; [| split; [simpl; lia | reflexivity]].
  exists "", "d". reflexivity.
Qed.




(** C5, as the program has it. When one of the two labels matches no atom
    the function raises an exception of Python or NumPy: [IndexError] when
    the first label matches nothing (from indexing the empty match list),
    [IndexError] or [ValueError] otherwise. *)
Theorem unmatched_label_fails (overlap : matrix) (mol : atom_list)
        (sphericals : list nat) (element_1 element_2 : string) :
  length sphericals = length mol ->
  element_index mol element_1 = [] \/ element_index mol element_2 = [] ->
  exists e,
    compute_overlap_and_atomic_orbitals overlap sphericals mol
                                        element_1 element_2 = Err e
    /\ (e = IndexError \/ e = ValueError)
    /\ (element_index mol element_1 = [] -> e = IndexError).
Proof.
  intros Hlen Hnone.
  destruct (orbital_ind sphericals (0 :: cumsum sphericals)
                        (element_index mol element_1)) as [el | e] eqn:O1.
  - assert (N1 : element_index mol element_1 <> []).
    { intros E. rewrite E, orbital_ind_empty in O1. discriminate. }
    destruct Hnone as [E | E]; [contradiction |].
    exists IndexError. split; [| split; [left; reflexivity | reflexivity]].
    apply compute_overlap_Err_of_sets.
    rewrite (orbital_index_sets_unfold mol sphericals Hlen), O1, E.
    reflexivity.
  - exists e. split; [| split].
    + apply compute_overlap_Err_of_sets.
      rewrite (orbital_index_sets_unfold mol sphericals Hlen), O1. reflexivity.
    + exact (orbital_ind_selected_errors mol sphericals Hlen _ O1).
    + intros E. rewrite E, orbital_ind_empty in O1. congruence.
Qed.

Lemma unmatched_label_fails_witness :
  exists e,
    compute_overlap_and_atomic_orbitals (zeros 5 5) [3; 2] [atom "cd"; atom "se"]
                                        "Te" "Cd" = Err e
    /\ (e = IndexError \/ e = ValueError)
    /\ (element_index [atom "cd"; atom "se"] "Te" = [] -> e = IndexError).
Proof.
  apply (unmatched_label_fails (zeros 5 5) [atom "cd"; atom "se"] [3; 2] "Te" "Cd").
  - reflexivity.
  - left. reflexivity.
Defined.

(** C5 as written fails: a label that matches no atom makes the program
    raise [IndexError], not [SelectionError]. *)
Lemma unmatched_label_counterexample :
  element_index [atom "h"] "C" = []
  /\ compute_overlap_and_atomic_orbitals (zeros 1 1) [1] [atom "h"] "C" "H"
     = Err IndexError
  /\ compute_overlap_and_atomic_orbitals (zeros 1 1) [1] [atom "h"] "C" "H"
     <> Err SelectionError.
Proof.
  assert (E : compute_overlap_and_atomic_orbitals (zeros 1 1) [1] [atom "h"] "C" "H"
              = Err IndexError) by reflexivity.
  split; [reflexivity | split; [exact E | rewrite E; discriminate]].
Qed.




Close Scope string_scope.

(** ** Lists and sums of reals *)

Section Sums.

Open Scope R_scope.

Lemma nth_map_lt {A B : Type} (f : A -> B) (l : list A) (i : nat) (d : A) (d' : B) :
  (i < length l)%nat -> nth i (map f l) d' = f (nth i l d).
Proof.
  intros H. rewrite (nth_indep (map f l) d' (f d)) by (rewrite length_map; exact H).
  apply map_nth.
Qed.

Lemma sum_list_ext {A : Type} (f g : A -> R) (l : list A) :
  (forall x, In x l -> f x = g x) -> sum_list (map f l) = sum_list (map g l).
Proof.
  intros H. rewrite (map_ext_in f g l H). reflexivity.
Qed.

Lemma sum_list_zero {A : Type} (l : list A) :
  sum_list (map (fun _ => 0) l) = 0.
Proof.
  induction l as [| x l IH]; simpl; [| rewrite IH]; lra.
Qed.

Lemma sum_list_plus {A : Type} (f g : A -> R) (l : list A) :
  sum_list (map (fun x => f x + g x) l)
  = sum_list (map f l) + sum_list (map g l).
Proof.
  induction l as [| x l IH]; simpl; [| rewrite IH]; lra.
Qed.

(** The order of a double summation can be exchanged. *)
Lemma sum_list_exchange {A B : Type} (f : A -> B -> R) (la : list A) (lb : list B) :
  sum_list (map (fun a => sum_list (map (fun b => f a b) lb)) la)
  = sum_list (map (fun b => sum_list (map (fun a => f a b) la)) lb).
Proof.
  induction la as [| a la IH]; simpl.
  - rewrite sum_list_zero. reflexivity.
  - rewrite IH, <- sum_list_plus. reflexivity.
Qed.

Lemma big_sum_ext (n : nat) (f g : nat -> R) :
  (forall i, (i < n)%nat -> f i = g i) -> big_sum n f = big_sum n g.
Proof.
  intros H. unfold big_sum. apply sum_list_ext.
  intros i Hi. apply in_seq in Hi. apply H. lia.
Qed.

Lemma big_sum_exchange (n m : nat) (f : nat -> nat -> R) :
  big_sum n (fun a => big_sum m (fun b => f a b))
  = big_sum m (fun b => big_sum n (fun a => f a b)).
Proof. unfold big_sum. apply sum_list_exchange. Qed.

End Sums.

(** ** Arrays: shapes and entries *)

Section Arrays.

Open Scope R_scope.

Lemma forallb_lt (n : nat) (idx : list nat) :
  forallb (fun i => i <? n)%nat idx = true <-> Forall (fun i => (i < n)%nat) idx.
Proof.
  rewrite forallb_forall, Forall_forall.
  split; intros H i Hi; apply Nat.ltb_lt, H, Hi.
Qed.

Lemma take_Ok (v : list R) (idx : list nat) :
  Forall (fun i => (i < length v)%nat) idx ->
  take v idx = Ok (map (fun i => nth i v 0) idx).
Proof.
  intros H. unfold take. apply forallb_lt in H. rewrite H. reflexivity.
Qed.

(** [take] either succeeds or raises [IndexError]. *)
Lemma take_cases (v : list R) (idx : list nat) :
  take v idx = Ok (map (fun i => nth i v 0) idx) \/ take v idx = Err IndexError.
Proof.
  unfold take. destruct (forallb _ idx); [left | right]; reflexivity.
Qed.

Lemma column_length (M : matrix) (k : nat) : length (column M k) = nrows M.
Proof. unfold column, nrows. apply length_map. Qed.

Lemma column_nth (M : matrix) (k i : nat) : nth i (column M k) 0 = entry M i k.
Proof.
  unfold column, entry.
  destruct (Nat.lt_ge_cases i (length (rows M))) as [H | H].
  - apply (nth_map_lt (fun r => nth k r 0) (rows M) i [] 0 H).
  - rewrite (nth_overflow (map _ (rows M))) by (rewrite length_map; exact H).
    rewrite (nth_overflow (rows M)) by exact H.
    destruct k; reflexivity.
Qed.

Lemma nrows_transpose (M : matrix) : nrows (transpose M) = ncols M.
Proof. unfold nrows, transpose. simpl. rewrite length_map, length_seq. reflexivity. Qed.

Lemma ncols_transpose (M : matrix) : ncols (transpose M) = nrows M.
Proof. reflexivity. Qed.

Lemma entry_transpose (M : matrix) (i j : nat) :
  (i < nrows M)%nat -> (j < ncols M)%nat -> entry (transpose M) j i = entry M i j.
Proof.
  intros Hi Hj. unfold entry at 1, transpose. simpl.
  rewrite (nth_map_lt _ (seq 0 (ncols M)) j 0%nat []) by (rewrite length_seq; exact Hj).
  rewrite (nth_map_lt _ (seq 0 (nrows M)) i 0%nat 0) by (rewrite length_seq; exact Hi).
  rewrite !seq_nth by assumption. reflexivity.
Qed.

(** The outer product, entry by entry; out of range both sides are 0. *)
Lemma entry_tensordot0 (u v : list R) (i j : nat) :
  entry (tensordot0 u v) i j = nth i u 0 * nth j v 0.
Proof.
  unfold entry, tensordot0. simpl.
  destruct (Nat.lt_ge_cases i (length u)) as [Hi | Hi].
  - rewrite (nth_map_lt _ u i 0 [] Hi).
    destruct (Nat.lt_ge_cases j (length v)) as [Hj | Hj].
    + rewrite (nth_map_lt _ v j 0 0 Hj). reflexivity.
    + rewrite (nth_overflow v) by exact Hj.
      rewrite nth_overflow by (rewrite length_map; exact Hj). lra.
  - rewrite (nth_overflow u) by exact Hi.
    rewrite (nth_overflow (map _ u)) by (rewrite length_map; exact Hi).
    destruct j; simpl; lra.
Qed.

Lemma nrows_tensordot0 (u v : list R) : nrows (tensordot0 u v) = length u.
Proof. unfold nrows, tensordot0. simpl. apply length_map. Qed.

Lemma broadcast_dim_same (n : nat) : broadcast_dim n n = Ok n.
Proof. unfold broadcast_dim. rewrite Nat.eqb_refl. reflexivity. Qed.

Lemma broadcast_dim_sym (n m : nat) : broadcast_dim n m = broadcast_dim m n.
Proof.
  unfold broadcast_dim.
  destruct (Nat.eqb_spec n m) as [-> | N].
  - rewrite Nat.eqb_refl. reflexivity.
  - destruct (Nat.eqb_spec m n) as [E | _]; [congruence |].
    destruct (Nat.eqb_spec n 1) as [-> | N1];
      destruct (Nat.eqb_spec m 1) as [-> | M1]; reflexivity.
Qed.

(** An index of the broadcast result reads each operand inside its shape. *)
Lemma broadcast_index_l (n m r i : nat) :
  broadcast_dim n m = Ok r -> (i < r)%nat ->
  ((if n =? 1 then 0 else i) < n)%nat.
Proof.
  unfold broadcast_dim. intros H Hi.
  destruct (Nat.eqb_spec n 1) as [-> | N1]; [lia |].
  destruct (Nat.eqb_spec n m) as [-> | N]; [inversion H; subst; exact Hi |].
  destruct (Nat.eqb_spec m 1); [inversion H; subst; exact Hi | discriminate].
Qed.

Lemma broadcast_index_r (n m r i : nat) :
  broadcast_dim n m = Ok r -> (i < r)%nat ->
  ((if m =? 1 then 0 else i) < m)%nat.
Proof.
  rewrite broadcast_dim_sym. apply broadcast_index_l.
Qed.

Lemma entry_bc_in (M : matrix) (i j : nat) :
  (i < nrows M)%nat -> (j < ncols M)%nat -> entry_bc M i j = entry M i j.
Proof.
  intros Hi Hj. unfold entry_bc.
  assert (Ei : (if nrows M =? 1 then 0 else i)%nat = i)
    by (destruct (Nat.eqb_spec (nrows M) 1); lia).
  assert (Ej : (if ncols M =? 1 then 0 else j)%nat = j)
    by (destruct (Nat.eqb_spec (ncols M) 1); lia).
  rewrite Ei, Ej. reflexivity.
Qed.

(** The sum of a product of two arrays, as a double sum over the broadcast
    shape. *)
Lemma sum_multiply (A B P : matrix) :
  multiply A B = Ok P ->
  exists r c,
    broadcast_dim (nrows A) (nrows B) = Ok r
    /\ broadcast_dim (ncols A) (ncols B) = Ok c
    /\ sum P = big_sum r (fun i => big_sum c (fun j =>
                 entry_bc A i j * entry_bc B i j)).
Proof.
  unfold multiply. intros H.
  apply bind_Ok_inv in H. destruct H as (r & Hr & H).
  apply bind_Ok_inv in H. destruct H as (c & Hc & H).
  exists r, c. split; [exact Hr | split; [exact Hc |]].
  inversion H; subst P; clear H.
  unfold sum, big_sum. simpl. rewrite map_map. reflexivity.
Qed.

Lemma multiply_Ok (A B : matrix) (r c : nat) :
  broadcast_dim (nrows A) (nrows B) = Ok r ->
  broadcast_dim (ncols A) (ncols B) = Ok c ->
  exists P, multiply A B = Ok P.
Proof.
  intros Hr Hc. unfold multiply. rewrite Hr, Hc. simpl. eexists. reflexivity.
Qed.

End Arrays.

(** ** The contraction of one column *)

Section Contraction.

Open Scope R_scope.

Lemma mapM_ext {A B : Type} (f g : A -> result B) (l : list A) :
  (forall x, f x = g x) -> mapM f l = mapM g l.
Proof.
  intros E. induction l as [| x l IH]; simpl; [| rewrite E, IH]; reflexivity.
Qed.

Lemma broadcast_dim_Err (n m : nat) (e : exception) :
  broadcast_dim n m = Err e -> e = ValueError.
Proof.
  unfold broadcast_dim.
  destruct (n =? m)%nat, (n =? 1)%nat, (m =? 1)%nat; congruence.
Qed.

Lemma coop_func_value (col : list R) (red : matrix) (idx1 idx2 : list nat) :
  Forall (fun i => (i < length col)%nat) idx1 ->
  Forall (fun i => (i < length col)%nat) idx2 ->
  nrows red = length idx1 ->
  ncols red = length idx2 ->
  coop_func col red idx1 idx2
  = Ok (big_sum (length idx1) (fun a => big_sum (length idx2) (fun b =>
          nth (nth a idx1 0%nat) col 0 * nth (nth b idx2 0%nat) col 0
          * entry red a b))).
Proof.
  intros H1 H2 Hr Hc. unfold coop_func.
  rewrite !take_Ok by assumption. cbn [bind].
  set (c1 := map (fun i => nth i col 0) idx1).
  set (c2 := map (fun i => nth i col 0) idx2).
  assert (L1 : length c1 = length idx1) by apply length_map.
  assert (L2 : length c2 = length idx2) by apply length_map.
  assert (Br : broadcast_dim (nrows (tensordot0 c1 c2)) (nrows red)
               = Ok (length idx1)).
  { rewrite nrows_tensordot0, L1, Hr. apply broadcast_dim_same. }
  assert (Bc : broadcast_dim (ncols (tensordot0 c1 c2)) (ncols red)
               = Ok (length idx2)).
  { cbn [ncols tensordot0]. rewrite L2, Hc. apply broadcast_dim_same. }
  destruct (multiply_Ok _ _ _ _ Br Bc) as [P HP]. rewrite HP. cbn [bind].
  destruct (sum_multiply _ _ _ HP) as (r & c & Hr' & Hc' & HS).
  rewrite Br in Hr'. rewrite Bc in Hc'.
  inversion Hr'; inversion Hc'; subst r c; clear Hr' Hc'.
  rewrite HS. f_equal.
  apply big_sum_ext. intros a Ha. apply big_sum_ext. intros b Hb.
  rewrite entry_bc_in
    by (rewrite ?nrows_tensordot0; cbn [ncols tensordot0]; lia).
  rewrite (entry_bc_in red) by lia.
  rewrite entry_tensordot0. unfold c1, c2.
  rewrite (nth_map_lt _ idx1 a 0%nat 0 Ha), (nth_map_lt _ idx2 b 0%nat 0 Hb).
  reflexivity.
Qed.

(** Exchanging the two index sequences and transposing the reduced matrix
    leaves the contraction of a column unchanged, errors included. *)
Lemma coop_func_swap (col : list R) (red : matrix) (idx1 idx2 : list nat) :
  coop_func col (transpose red) idx2 idx1 = coop_func col red idx1 idx2.
Proof.
  unfold coop_func.
  destruct (take_cases col idx1) as [E1 | E1];
    destruct (take_cases col idx2) as [E2 | E2];
    rewrite E1, E2; cbn [bind]; try reflexivity.
  set (c1 := map (fun i => nth i col 0) idx1).
  set (c2 := map (fun i => nth i col 0) idx2).
  unfold multiply.
  rewrite !nrows_tensordot0, nrows_transpose, ncols_transpose.
  cbn [ncols tensordot0].
  destruct (broadcast_dim (length c1) (nrows red)) as [r | e] eqn:Hr;
    destruct (broadcast_dim (length c2) (ncols red)) as [c | e'] eqn:Hc;
    cbn [bind];
    try apply broadcast_dim_Err in Hr; try apply broadcast_dim_Err in Hc;
    subst; try reflexivity.
  f_equal. unfold sum. cbn [rows]. rewrite !map_map.
  change (big_sum c (fun j => big_sum r (fun i =>
            entry_bc (tensordot0 c2 c1) j i * entry_bc (transpose red) j i))
          = big_sum r (fun i => big_sum c (fun j =>
              entry_bc (tensordot0 c1 c2) i j * entry_bc red i j))).
  rewrite big_sum_exchange.
  apply big_sum_ext. intros i Hi. apply big_sum_ext. intros j Hj.
  unfold entry_bc.
  rewrite !nrows_tensordot0, nrows_transpose, ncols_transpose.
  cbn [ncols tensordot0].
  rewrite !entry_tensordot0.
  rewrite entry_transpose
    by (eapply broadcast_index_r; eassumption).
  ring.
Qed.

Lemma compute_coop_value (C red : matrix) (idx1 idx2 : list nat) :
  (0 < ncols C)%nat ->
  Forall (fun i => (i < nrows C)%nat) idx1 ->
  Forall (fun i => (i < nrows C)%nat) idx2 ->
  nrows red = length idx1 ->
  ncols red = length idx2 ->
  compute_coop C red idx1 idx2
  = Ok (map (fun k => big_sum (length idx1) (fun a =>
                        big_sum (length idx2) (fun b =>
                          entry C (nth a idx1 0%nat) k
                          * entry C (nth b idx2 0%nat) k
                          * entry red a b)))
            (seq 0 (ncols C))).
Proof.
  intros Hpos H1 H2 Hr Hc. unfold compute_coop, apply_along_axis0.
  destruct (ncols C) as [| n] eqn:E; [lia |].
  apply mapM_Ok. intros k _.
  rewrite coop_func_value;
    try (rewrite column_length; assumption); try assumption.
  f_equal. apply big_sum_ext. intros a _. apply big_sum_ext. intros b _.
  rewrite !column_nth. reflexivity.
Qed.

End Contraction.

(** ** The result table *)

Section Table.

Open Scope R_scope.

Lemma set_column_rows_first (energies : list R) :
  set_column_rows (repeat [0; 0] (length energies)) 0 energies
  = map (fun e => [e; 0]) energies.
Proof.
  induction energies as [| e es IH]; simpl; [| rewrite IH]; reflexivity.
Qed.

Lemma set_column_rows_second (energies coop : list R) :
  length energies = length coop ->
  set_column_rows (map (fun e => [e; 0]) energies) 1 coop
  = map (fun p => [fst p; snd p]) (combine energies coop).
Proof.
  revert coop. induction energies as [| e es IH]; intros [| c cs] H;
    simpl in *; try discriminate; try reflexivity.
  rewrite IH by lia. reflexivity.
Qed.

Lemma set_column_first (energies : list R) (n : nat) :
  length energies = n ->
  set_column (zeros n 2) 0 energies = Ok (Matrix 2 (map (fun e => [e; 0]) energies)).
Proof.
  intros <-. unfold set_column, zeros, nrows. cbn [rows ncols repeat].
  rewrite repeat_length, Nat.eqb_refl, set_column_rows_first. reflexivity.
Qed.

Lemma print_coop_table (energies coop : list R) :
  length energies = length coop ->
  (r <- set_column (zeros (length coop) 2) 0 energies ;;
   set_column r 1 coop)
  = Ok (Matrix 2 (map (fun p => [fst p; snd p]) (combine energies coop))).
Proof.
  intros H. rewrite (set_column_first energies (length coop) H). cbn [bind].
  unfold set_column, nrows. cbn [rows ncols].
  rewrite length_map, H, Nat.eqb_refl.
  rewrite set_column_rows_second by exact H. reflexivity.
Qed.

End Table.

(** ** Properties of the reduction, the contraction and the output *)

Open Scope R_scope.

(** C2. For a full overlap matrix of shape [N x N] and two in-bounds index
    sequences, the reduction succeeds, the reduced matrix has shape
    [(len(idx1), len(idx2))] and its entry [(a, b)] is
    [S[idx1[a], idx2[b]]]; this is the matrix
    [compute_overlap_and_atomic_orbitals] returns with the index
    sequences. *)
Theorem reduce_overlap_spec (S : matrix) (N : nat) (idx1 idx2 : list nat) :
  has_shape S N N ->
  Forall (fun i => (i < N)%nat) idx1 ->
  Forall (fun j => (j < N)%nat) idx2 ->
  exists red,
    reduce_overlap S idx1 idx2 = Ok red
    /\ shape red = (length idx1, length idx2)
    /\ has_shape red (length idx1) (length idx2)
    /\ (forall a b, (a < length idx1)%nat -> (b < length idx2)%nat ->
                    entry red a b = entry S (nth a idx1 0%nat) (nth b idx2 0%nat))
    /\ (forall sphericals mol element_1 element_2,
           orbital_index_sets sphericals mol element_1 element_2
           = Ok (idx1, idx2) ->
           compute_overlap_and_atomic_orbitals S sphericals mol
                                               element_1 element_2
           = Ok (idx1, idx2, red)).
Proof.
  intros (Hr & Hc & Hrows) H1 H2.
  set (red := Matrix (length idx2)
                     (map (fun r => map (fun j => nth j r 0) idx2)
                          (map (fun i => nth i (rows S) []) idx1))).
  assert (E : reduce_overlap S idx1 idx2 = Ok red).
  { unfold reduce_overlap, take_rows, take_cols.
    rewrite Hr. apply forallb_lt in H1. rewrite H1. cbn [bind ncols rows].
    rewrite Hc. apply forallb_lt in H2. rewrite H2. reflexivity. }
  assert (Nr : nrows red = length idx1).
  { unfold nrows, red. cbn [rows]. rewrite !length_map. reflexivity. }
  exists red. split; [exact E |].
  split; [unfold shape; rewrite Nr; reflexivity |].
  split; [| split].
  - split; [exact Nr | split; [reflexivity |]].
    unfold red. cbn [rows]. apply Forall_forall. intros r Hin.
    apply in_map_iff in Hin. destruct Hin as (r0 & <- & _).
    apply length_map.
  - intros a b Ha Hb. unfold entry, red. cbn [rows].
    rewrite map_map.
    rewrite (nth_map_lt _ idx1 a 0%nat [] Ha).
    rewrite (nth_map_lt _ idx2 b 0%nat 0 Hb). reflexivity.
  - intros sphericals mol element_1 element_2 HS.
    unfold compute_overlap_and_atomic_orbitals.
    rewrite HS. cbn [bind fst snd]. rewrite E. reflexivity.
Qed.

Lemma reduce_overlap_spec_witness :
  exists red,
    reduce_overlap (Matrix 2 [[1; 2]; [3; 4]]) [1%nat] [0%nat; 1%nat] = Ok red
    /\ shape red = (1%nat, 2%nat)
    /\ has_shape red 1 2
    /\ entry red 0 1 = 4.
Proof.
  destruct (reduce_overlap_spec (Matrix 2 [[1; 2]; [3; 4]]) 2
                                [1%nat] [0%nat; 1%nat])
    as (red & E & Hs & Hh & He & _).
  - split; [reflexivity | split; [reflexivity |]].
    repeat constructor.
  - repeat constructor.
  - repeat constructor.
  - exists red. split; [exact E | split; [exact Hs | split; [exact Hh |]]].
    rewrite He by (simpl; lia). reflexivity.
Defined.

(** C1, as the program has it. For a coefficient matrix of shape
    [N_AO x N_levels] with at least one level, a reduced overlap matrix of
    shape [|idx1| x |idx2|] and two in-bounds index sequences,
    [compute_coop] returns a vector of length [N_levels] whose entry [k] is
    the sum over all [(a, b)] of
    [coefficients[idx1[a], k] * coefficients[idx2[b], k] * overlap_reduced[a, b]]. *)
Theorem compute_coop_spec (C red : matrix) (N_AO N_levels : nat)
        (idx1 idx2 : list nat) :
  has_shape C N_AO N_levels ->
  (0 < N_levels)%nat ->
  has_shape red (length idx1) (length idx2) ->
  Forall (fun i => (i < N_AO)%nat) idx1 ->
  Forall (fun i => (i < N_AO)%nat) idx2 ->
  exists coop,
    compute_coop C red idx1 idx2 = Ok coop
    /\ length coop = N_levels
    /\ forall k, (k < N_levels)%nat ->
         nth k coop 0
         = big_sum (length idx1) (fun a => big_sum (length idx2) (fun b =>
             entry C (nth a idx1 0%nat) k * entry C (nth b idx2 0%nat) k
             * entry red a b)).
Proof.
  intros (Cr & Cc & _) Hpos (Rr & Rc & _) H1 H2.
  eexists. split; [| split].
  - apply compute_coop_value; try assumption; rewrite ?Cr, ?Cc; assumption.
  - rewrite length_map, length_seq. exact Cc.
  - intros k Hk.
    rewrite (nth_map_lt _ (seq 0 (ncols C)) k 0%nat 0)
      by (rewrite length_seq, Cc; exact Hk).
    rewrite seq_nth by (rewrite Cc; exact Hk). reflexivity.
Qed.

Lemma compute_coop_spec_witness :
  exists coop,
    compute_coop (Matrix 2 [[1; 0]; [0; 1]]) (Matrix 1 [[3 / 10]])
                 [0%nat] [1%nat] = Ok coop
    /\ length coop = 2%nat
    /\ nth 0 coop 0 = 0
    /\ nth 1 coop 0 = 0.
Proof.
  destruct (compute_coop_spec (Matrix 2 [[1; 0]; [0; 1]]) (Matrix 1 [[3 / 10]])
                              2 2 [0%nat] [1%nat])
    as (coop & E & L & V).
  - split; [reflexivity | split; [reflexivity |]]. repeat constructor.
  - lia.
  - split; [reflexivity | split; [reflexivity |]]. repeat constructor.
  - repeat constructor.
  - repeat constructor.
  - exists coop. split; [exact E | split; [exact L |]].
    rewrite !V by lia. unfold big_sum, entry. simpl. split; lra.
Defined.

(** C1 as written fails on a coefficient matrix with no level: NumPy's
    [apply_along_axis] raises [ValueError] instead of returning the empty
    vector. *)
Lemma compute_coop_no_level_counterexample :
  has_shape (Matrix 0 [[]; []]) 2 0
  /\ has_shape (Matrix 1 [[1 / 2]]) 1 1
  /\ compute_coop (Matrix 0 [[]; []]) (Matrix 1 [[1 / 2]]) [0%nat] [1%nat]
     = Err ValueError.
Proof.
  split; [| split; [| reflexivity]];
    (split; [reflexivity | split; [reflexivity | repeat constructor]]).
Qed.

(** C8. Exchanging the two index sequences and transposing the reduced
    overlap matrix gives the same result of [compute_coop]: the same COOP
    vector, or the same exception. *)
Theorem compute_coop_swap (C red : matrix) (idx1 idx2 : list nat) :
  compute_coop C (transpose red) idx2 idx1 = compute_coop C red idx1 idx2.
Proof.
  unfold compute_coop, apply_along_axis0.
  destruct (ncols C); [reflexivity |].
  apply mapM_ext. intros col. apply coop_func_swap.
Qed.

(** C9. For an energy vector and a COOP vector of the same length,
    [print_coop] builds the table of shape [N_levels x 2] whose row [k] is
    [(energies[k], coop[k])], in the order of the input; it writes that
    table to [COOP.txt] and returns it whenever the file can be written, and
    it returns no other table. *)
Theorem print_coop_spec (energies coop : list R) (fs : filesystem) :
  length energies = length coop ->
  exists table,
    rows table = map (fun p => [fst p; snd p]) (combine energies coop)
    /\ has_shape table (length energies) 2
    /\ (forall k, (k < length energies)%nat ->
                  entry table k 0 = nth k energies 0
                  /\ entry table k 1 = nth k coop 0)
    /\ (writable fs "COOP.txt" = true ->
        print_coop energies coop fs
        = Ok (table, Filesystem (writable fs) (("COOP.txt"%string, table) :: files fs)))
    /\ (forall t fs', print_coop energies coop fs = Ok (t, fs') -> t = table).
Proof.
  intros H.
  set (table := Matrix 2 (map (fun p => [fst p; snd p]) (combine energies coop))).
  assert (E : forall k : matrix -> result (matrix * filesystem),
             (a <- set_column (zeros (length coop) 2) 0 energies ;;
              b <- set_column a 1 coop ;; k b) = k table).
  { intros k. pose proof (print_coop_table energies coop H) as T.
    destruct (set_column (zeros (length coop) 2) 0 energies) as [a | e];
      cbn [bind] in *; [| discriminate].
    rewrite T. reflexivity. }
  exists table. split; [reflexivity |].
  assert (L : length (combine energies coop) = length energies)
    by (rewrite length_combine; lia).
  split; [| split; [| split]].
  - split; [unfold nrows, table; cbn [rows]; rewrite length_map; exact L |].
    split; [reflexivity |].
    unfold table. cbn [rows]. apply Forall_forall. intros r Hin.
    apply in_map_iff in Hin. destruct Hin as (p & <- & _). reflexivity.
  - intros k Hk. unfold entry, table. cbn [rows].
    rewrite (nth_map_lt _ (combine energies coop) k (0, 0) [])
      by (rewrite L; exact Hk).
    rewrite combine_nth by exact H. split; reflexivity.
  - intros W. unfold print_coop. rewrite E.
    unfold savetxt. rewrite W. reflexivity.
  - intros t fs' HP. unfold print_coop in HP. rewrite E in HP.
    destruct (savetxt "COOP.txt" table fs); cbn [bind] in HP; congruence.
Qed.

Lemma print_coop_spec_witness :
  exists table,
    rows table = [[1; 3]; [2; 4]]
    /\ has_shape table 2 2
    /\ print_coop [1; 2] [3; 4] (Filesystem (fun _ => true) [])
       = Ok (table, Filesystem (fun _ => true) [("COOP.txt"%string, table)]).
Proof.
  destruct (print_coop_spec [1; 2] [3; 4] (Filesystem (fun _ => true) []))
    as (table & Hrows & Hshape & _ & Hwrite & _).
  - reflexivity.
  - exists table. split; [exact Hrows | split; [exact Hshape |]].
    apply Hwrite. reflexivity.
Defined.

(** C7. The unit conversion multiplies every energy by the Hartree-to-eV
    constant: an energy of 1 becomes the constant, which is 27.211386 to six
    decimals, and converting twice an energy vector gives twice the
    converted vector. The coefficients are returned as they were read. *)
Theorem energy_conversion_spec (coefficients : matrix) (eigenvalues : list R) :
  fst (get_eigenvalues_coefficients coefficients eigenvalues) = coefficients
  /\ length (snd (get_eigenvalues_coefficients coefficients eigenvalues))
     = length eigenvalues
  /\ (forall k, (k < length eigenvalues)%nat ->
                nth k (snd (get_eigenvalues_coefficients coefficients eigenvalues)) 0
                = nth k eigenvalues 0 * h2ev)
  /\ snd (get_eigenvalues_coefficients coefficients [1]) = [h2ev]
  /\ Rabs (h2ev - 27211386 / 1000000) < 1 / 1000000
  /\ snd (get_eigenvalues_coefficients coefficients (map (Rmult 2) eigenvalues))
     = map (Rmult 2) (snd (get_eigenvalues_coefficients coefficients eigenvalues)).
Proof.
  unfold get_eigenvalues_coefficients. cbn [fst snd].
  split; [reflexivity |].
  split; [apply length_map |].
  split.
  - intros k Hk. apply (nth_map_lt (fun e => e * h2ev) eigenvalues k 0 0 Hk).
  - split; [simpl; f_equal; ring |].
    split.
    + unfold h2ev. apply Rabs_def1; lra.
    + rewrite !map_map. apply map_ext. intros e. ring.
Qed.

(** ** The two scenarios of the specification *)

Example scenario_one_level :
  compute_coop (Matrix 1 [[1]; [1]]) (Matrix 1 [[1 / 2]]) [0%nat] [1%nat]
  = Ok [1 / 2].
Proof.
  unfold compute_coop, apply_along_axis0, coop_func, take, multiply, sum, sum_list.
  simpl. unfold entry_bc, entry. simpl. do 2 f_equal. lra.
Qed.

Example scenario_two_levels :
  compute_coop (Matrix 2 [[1; 0]; [0; 1]]) (Matrix 1 [[3 / 10]]) [0%nat] [1%nat]
  = Ok [0; 0].
Proof.
  unfold compute_coop, apply_along_axis0, coop_func, take, multiply, sum, sum_list.
  simpl. unfold entry_bc, entry. simpl. f_equal.
  repeat (f_equal; try lra).
Qed.

Close Scope R_scope.

(** ** Further properties of the index construction *)

Section IndexSets.

Variable mol : atom_list.
Variable sphericals : list nat.
Hypothesis same_length : length sphericals = length mol.

(** The offset of atom [i] is the number of orbitals on the atoms before
    it. *)
Lemma cumsum_from_nth (acc : nat) (xs : list nat) (i : nat) :
  i <= length xs ->
  nth i (acc :: cumsum_from acc xs) 0 = acc + list_sum (firstn i xs).
Proof.
  revert acc i. induction xs as [| x xs IH]; intros acc i H.
  - simpl in H. replace i with 0 by lia. simpl. lia.
  - destruct i as [| i]; [simpl; lia |].
    change (nth i ((acc + x) :: cumsum_from (acc + x) xs) 0
            = acc + (x + list_sum (firstn i xs))).
    rewrite IH by (simpl in H; lia). lia.
Qed.

Lemma offsets_total : nth (length mol) (0 :: cumsum sphericals) 0 = list_sum sphericals.
Proof.
  unfold cumsum. rewrite cumsum_from_nth by lia.
  rewrite <- same_length, firstn_all. reflexivity.
Qed.

Lemma range_below_next (i o : nat) :
  i < length mol ->
  In o (orbital_range sphericals (0 :: cumsum sphericals) i) ->
  nth i (0 :: cumsum sphericals) 0 <= o < nth (S i) (0 :: cumsum sphericals) 0.
Proof.
  intros Hi Ho. unfold orbital_range in Ho. apply in_seq in Ho.
  unfold cumsum in *. rewrite cumsum_from_step by lia. exact Ho.
Qed.

Lemma range_below_total (i o : nat) :
  i < length mol ->
  In o (orbital_range sphericals (0 :: cumsum sphericals) i) ->
  o < list_sum sphericals.
Proof.
  intros Hi Ho. destruct (range_below_next i o Hi Ho) as [_ H].
  rewrite <- offsets_total.
  pose proof (@offsets_monotone sphericals (S i) (length mol)) as M.
  specialize (M ltac:(lia) ltac:(lia)). lia.
Qed.

(** The ranges of two atoms, the first before the second, do not meet. *)
Lemma ranges_ordered (i j o p : nat) :
  i < j -> j < length mol ->
  In o (orbital_range sphericals (0 :: cumsum sphericals) i) ->
  In p (orbital_range sphericals (0 :: cumsum sphericals) j) ->
  o < p.
Proof.
  intros Hij Hj Ho Hp.
  destruct (range_below_next i o ltac:(lia) Ho) as [_ H1].
  destruct (range_below_next j p Hj Hp) as [H2 _].
  pose proof (@offsets_monotone sphericals (S i) j) as M.
  specialize (M ltac:(lia) ltac:(lia)). lia.
Qed.

(** What a successful construction for one element returns. *)
Lemma orbital_ind_Ok_inv (element : string) (idx : list nat) :
  orbital_ind sphericals (0 :: cumsum sphericals) (element_index mol element) = Ok idx ->
  element_index mol element <> []
  /\ uniform sphericals (element_index mol element)
  /\ idx = concat (map (orbital_range sphericals (0 :: cumsum sphericals))
                       (element_index mol element)).
Proof.
  intros H.
  pose proof (element_index_in_range mol sphericals same_length element) as R.
  destruct (element_index mol element) as [| i0 rest] eqn:E.
  - rewrite orbital_ind_empty in H. discriminate.
  - rewrite (orbital_ind_cases sphericals (0 :: cumsum sphericals) R) in H.
    destruct (forallb _ rest) eqn:F; [| discriminate].
    split; [discriminate |].
    split; [apply uniform_forallb; exact F | congruence].
Qed.

Lemma orbital_index_sets_Ok_inv (element_1 element_2 : string)
      (idx1 idx2 : list nat) :
  orbital_index_sets sphericals mol element_1 element_2 = Ok (idx1, idx2) ->
  orbital_ind sphericals (0 :: cumsum sphericals) (element_index mol element_1) = Ok idx1
  /\ orbital_ind sphericals (0 :: cumsum sphericals) (element_index mol element_2) = Ok idx2.
Proof.
  rewrite (orbital_index_sets_unfold mol sphericals same_length).
  intros H.
  destruct (orbital_ind sphericals (0 :: cumsum sphericals) (element_index mol element_1));
    cbn [bind] in H; [| discriminate].
  destruct (orbital_ind sphericals (0 :: cumsum sphericals) (element_index mol element_2));
    cbn [bind] in H; [| discriminate].
  inversion H. split; reflexivity.
Qed.

Lemma In_concat_ranges (idx : list nat) (o : nat) :
  In o (concat (map (orbital_range sphericals (0 :: cumsum sphericals)) idx)) ->
  exists i, In i idx /\ In o (orbital_range sphericals (0 :: cumsum sphericals) i).
Proof.
  intros H. apply in_concat in H. destruct H as (r & Hr & Ho).
  apply in_map_iff in Hr. destruct Hr as (i & <- & Hi).
  exists i. split; assumption.
Qed.

Lemma orbital_ind_in_bounds (element : string) (idx : list nat) :
  orbital_ind sphericals (0 :: cumsum sphericals) (element_index mol element) = Ok idx ->
  Forall (fun o => o < list_sum sphericals) idx.
Proof.
  intros H. destruct (orbital_ind_Ok_inv element idx H) as (_ & _ & ->).
  apply Forall_forall. intros o Ho.
  destruct (In_concat_ranges _ _ Ho) as (i & Hi & Hr).
  apply element_index_In in Hi. destruct Hi as [Hi _].
  exact (range_below_total i o Hi Hr).
Qed.

Lemma StronglySorted_lt_app (l1 l2 : list nat) :
  StronglySorted lt l1 -> StronglySorted lt l2 ->
  (forall x y, In x l1 -> In y l2 -> x < y) ->
  StronglySorted lt (l1 ++ l2).
Proof.
  intros S1 S2 H. induction S1 as [| a l1 S1 IH Ha]; simpl.
  - exact S2.
  - constructor.
    + apply IH. intros x y Hx Hy. apply H; [right; exact Hx | exact Hy].
    + apply Forall_app. split; [exact Ha |].
      apply Forall_forall. intros y Hy. apply H; [left; reflexivity | exact Hy].
Qed.

Lemma seq_sorted (a n : nat) : StronglySorted lt (seq a n).
Proof.
  revert a. induction n as [| n IH]; intros a; simpl; constructor.
  - apply IH.
  - apply Forall_forall. intros x Hx. apply in_seq in Hx. lia.
Qed.

Lemma concat_ranges_sorted (idx : list nat) :
  StronglySorted lt idx ->
  (forall i, In i idx -> i < length mol) ->
  StronglySorted lt (concat (map (orbital_range sphericals (0 :: cumsum sphericals)) idx)).
Proof.
  intros S. induction S as [| a l S IH Ha]; intros Hin; simpl.
  - constructor.
  - apply StronglySorted_lt_app.
    + apply seq_sorted.
    + apply IH. intros i Hi. apply Hin. right. exact Hi.
    + intros x y Hx Hy.
      destruct (In_concat_ranges _ _ Hy) as (j & Hj & Hr).
      rewrite Forall_forall in Ha.
      apply (ranges_ordered a j x y); auto.
      apply Hin. right. exact Hj.
Qed.

End IndexSets.

Lemma orbital_indices_in_bounds_aux (mol : atom_list) (sphericals : list nat)
      (element_1 element_2 : string) (idx1 idx2 : list nat) :
  length sphericals = length mol ->
  orbital_index_sets sphericals mol element_1 element_2 = Ok (idx1, idx2) ->
  Forall (fun o => o < list_sum sphericals) idx1
  /\ Forall (fun o => o < list_sum sphericals) idx2.
Proof.
  intros Hlen H.
  destruct (orbital_index_sets_Ok_inv mol sphericals Hlen _ _ _ _ H) as [H1 H2].
  split;
    [apply (orbital_ind_in_bounds mol sphericals Hlen element_1)
    | apply (orbital_ind_in_bounds mol sphericals Hlen element_2)];
    assumption.
Qed.

Open Scope string_scope.

(** X1. Every orbital index the selector produces is a valid row and column
    of an overlap matrix of size [sum(sphericals)]. *)
Theorem orbital_indices_in_bounds (mol : atom_list) (sphericals : list nat)
        (element_1 element_2 : string) (idx1 idx2 : list nat) :
  length sphericals = length mol ->
  orbital_index_sets sphericals mol element_1 element_2 = Ok (idx1, idx2) ->
  Forall (fun o => o < list_sum sphericals) idx1
  /\ Forall (fun o => o < list_sum sphericals) idx2.
Proof.
  intros Hlen H.
  exact (orbital_indices_in_bounds_aux mol sphericals element_1 element_2
                                       idx1 idx2 Hlen H).
Qed.

Lemma orbital_indices_in_bounds_witness :
  Forall (fun o => o < 10) [0; 1; 2; 5; 6; 7]
  /\ Forall (fun o => o < 10) [3; 4; 8; 9].
Proof.
  apply (orbital_indices_in_bounds [atom "cd"; atom "se"; atom "cd"; atom "se"] [3; 2; 3; 2]
                                   "Cd" "Se"); reflexivity.
Defined.

(** X2. Each flat orbital-index sequence is strictly increasing, so it
    lists no orbital twice. *)
Theorem orbital_indices_increasing (mol : atom_list) (sphericals : list nat)
        (element_1 element_2 : string) (idx1 idx2 : list nat) :
  length sphericals = length mol ->
  orbital_index_sets sphericals mol element_1 element_2 = Ok (idx1, idx2) ->
  StronglySorted lt idx1 /\ NoDup idx1
  /\ StronglySorted lt idx2 /\ NoDup idx2.
Proof.
  intros Hlen H.
  destruct (orbital_index_sets_Ok_inv mol sphericals Hlen _ _ _ _ H) as [H1 H2].
  assert (S : forall element idx,
             orbital_ind sphericals (0 :: cumsum sphericals)
                         (element_index mol element) = Ok idx ->
             StronglySorted lt idx).
  { intros element idx Hi.
    destruct (orbital_ind_Ok_inv mol sphericals Hlen element idx Hi)
      as (_ & _ & ->).
    apply (concat_ranges_sorted mol sphericals Hlen);
      [apply element_index_sorted |].
    intros i Hin. apply element_index_In in Hin. tauto. }
  assert (D : forall l, StronglySorted lt l -> NoDup l).
  { intros l Hs. induction Hs as [| a l Hs IH Ha]; constructor; [| exact IH].
    intros Hin. rewrite Forall_forall in Ha. specialize (Ha a Hin). lia. }
  pose proof (S _ _ H1). pose proof (S _ _ H2). auto.
Qed.

Lemma orbital_indices_increasing_witness :
  StronglySorted lt [0; 1; 2; 5; 6; 7] /\ NoDup [0; 1; 2; 5; 6; 7]
  /\ StronglySorted lt [3; 4; 8; 9] /\ NoDup [3; 4; 8; 9].
Proof.
  apply (orbital_indices_increasing [atom "cd"; atom "se"; atom "cd"; atom "se"] [3; 2; 3; 2]
                                    "Cd" "Se"); reflexivity.
Defined.

(** X3. The number of orbital indices of an element is the number of
    matched atoms times the sphericals value of the first matched atom. *)
Theorem orbital_indices_length (mol : atom_list) (sphericals : list nat)
        (element_1 element_2 : string) (idx1 idx2 : list nat) :
  length sphericals = length mol ->
  orbital_index_sets sphericals mol element_1 element_2 = Ok (idx1, idx2) ->
  length idx1 = length (element_index mol element_1)
                * nth (hd 0 (element_index mol element_1)) sphericals 0
  /\ length idx2 = length (element_index mol element_2)
                   * nth (hd 0 (element_index mol element_2)) sphericals 0.
Proof.
  intros Hlen H.
  destruct (orbital_index_sets_Ok_inv mol sphericals Hlen _ _ _ _ H) as [H1 H2].
  assert (L : forall element idx,
             orbital_ind sphericals (0 :: cumsum sphericals)
                         (element_index mol element) = Ok idx ->
             length idx = length (element_index mol element)
                          * nth (hd 0 (element_index mol element)) sphericals 0).
  { intros element idx Hi.
    destruct (orbital_ind_Ok_inv mol sphericals Hlen element idx Hi)
      as (Hne & U & ->).
    destruct (element_index mol element) as [| i0 rest]; [contradiction |].
    cbn [hd].
    assert (G : forall l, (forall i, In i l -> In i (i0 :: rest)) ->
                length (concat (map (orbital_range sphericals
                                                   (0 :: cumsum sphericals)) l))
                = length l * nth i0 sphericals 0).
    { induction l as [| a l IH]; intros Hl; [reflexivity |].
      cbn [map concat length]. rewrite length_app, IH
        by (intros i Hin; apply Hl; right; exact Hin).
      unfold orbital_range at 1. rewrite length_seq.
      rewrite (U a i0 (Hl a (or_introl eq_refl)) (or_introl eq_refl)).
      reflexivity. }
    apply G. auto. }
  split; apply L; assumption.
Qed.

Lemma orbital_indices_length_witness :
  length [0; 1; 2; 5; 6; 7] = 2 * 3 /\ length [3; 4; 8; 9] = 2 * 2.
Proof.
  apply (orbital_indices_length [atom "cd"; atom "se"; atom "cd"; atom "se"] [3; 2; 3; 2]
                                "Cd" "Se"); reflexivity.
Defined.

(** X4. The index construction succeeds exactly when each of the two labels
    matches at least one atom and the atoms it matches share one sphericals
    value. *)
Theorem orbital_index_sets_succeeds_iff (mol : atom_list)
        (sphericals : list nat) (element_1 element_2 : string) :
  length sphericals = length mol ->
  (exists sets,
      orbital_index_sets sphericals mol element_1 element_2 = Ok sets)
  <-> (element_index mol element_1 <> []
       /\ uniform sphericals (element_index mol element_1)
       /\ element_index mol element_2 <> []
       /\ uniform sphericals (element_index mol element_2)).
Proof.
  intros Hlen. split.
  - intros [[idx1 idx2] H].
    destruct (orbital_index_sets_Ok_inv mol sphericals Hlen _ _ _ _ H)
      as [H1 H2].
    destruct (orbital_ind_Ok_inv mol sphericals Hlen _ _ H1) as (A & B & _).
    destruct (orbital_ind_Ok_inv mol sphericals Hlen _ _ H2) as (C & D & _).
    auto.
  - intros (A & B & C & D).
    rewrite (orbital_index_sets_unfold mol sphericals Hlen).
    rewrite !orbital_ind_uniform; try assumption;
      try (intros i; apply element_index_in_range; exact Hlen).
    eexists. reflexivity.
Qed.

Lemma orbital_index_sets_succeeds_iff_witness :
  (exists sets,
      orbital_index_sets [3; 2; 3; 2] [atom "cd"; atom "se"; atom "cd"; atom "se"] "Cd" "Se"
      = Ok sets)
  <-> (element_index [atom "cd"; atom "se"; atom "cd"; atom "se"] "Cd" <> []
       /\ uniform [3; 2; 3; 2] (element_index [atom "cd"; atom "se"; atom "cd"; atom "se"] "Cd")
       /\ element_index [atom "cd"; atom "se"; atom "cd"; atom "se"] "Se" <> []
       /\ uniform [3; 2; 3; 2] (element_index [atom "cd"; atom "se"; atom "cd"; atom "se"] "Se")).
Proof.
  apply (orbital_index_sets_succeeds_iff [atom "cd"; atom "se"; atom "cd"; atom "se"] [3; 2; 3; 2]
                                         "Cd" "Se").
  reflexivity.
Defined.

(** X5. Two elements that share no atom share no orbital: when no atom is
    matched by both labels, no index occurs in both sequences. *)
Theorem disjoint_atoms_disjoint_orbitals (mol : atom_list)
        (sphericals : list nat) (element_1 element_2 : string)
        (idx1 idx2 : list nat) :
  length sphericals = length mol ->
  orbital_index_sets sphericals mol element_1 element_2 = Ok (idx1, idx2) ->
  (forall i, In i (element_index mol element_1) ->
             In i (element_index mol element_2) -> False) ->
  Forall (fun o => ~ In o idx2) idx1.
Proof.
  intros Hlen H Hdis. apply Forall_forall. intros o Ho1 Ho2.
  destruct (orbital_index_sets_Ok_inv mol sphericals Hlen _ _ _ _ H) as [H1 H2].
  destruct (orbital_ind_Ok_inv mol sphericals Hlen _ _ H1) as (_ & _ & E1).
  destruct (orbital_ind_Ok_inv mol sphericals Hlen _ _ H2) as (_ & _ & E2).
  subst idx1 idx2.
  destruct (In_concat_ranges sphericals _ _ Ho1) as (i & Hi & Ri).
  destruct (In_concat_ranges sphericals _ _ Ho2) as (j & Hj & Rj).
  assert (Li : i < length mol) by (apply element_index_In in Hi; tauto).
  assert (Lj : j < length mol) by (apply element_index_In in Hj; tauto).
  destruct (Nat.lt_trichotomy i j) as [Lt | [Eq | Gt]].
  - pose proof (ranges_ordered mol sphericals Hlen i j o o Lt Lj Ri Rj). lia.
  - subst j. exact (Hdis i Hi Hj).
  - pose proof (ranges_ordered mol sphericals Hlen j i o o Gt Li Rj Ri). lia.
Qed.

Lemma disjoint_atoms_disjoint_orbitals_witness :
  Forall (fun o => ~ In o [3; 4; 8; 9]) [0; 1; 2; 5; 6; 7].
Proof.
  apply (disjoint_atoms_disjoint_orbitals [atom "cd"; atom "se"; atom "cd"; atom "se"] [3; 2; 3; 2]
                                          "Cd" "Se").
  - reflexivity.
  - reflexivity.
  - intros i H1 H2. simpl in H1, H2.
    destruct H1 as [<- | [<- | []]]; destruct H2 as [E | [E | []]];
      discriminate E.
Defined.

Close Scope string_scope.

(** ** Further properties of the offset table *)

Open Scope string_scope.

(** X9. A sphericals sequence whose length is neither the number of atoms
    nor 1 cannot be stored in the offset table: the function raises
    [ValueError] whatever the labels and the overlap matrix. *)
Theorem sphericals_length_mismatch (overlap : matrix) (mol : atom_list)
        (sphericals : list nat) (element_1 element_2 : string) :
  length sphericals <> length mol ->
  length sphericals <> 1 ->
  make_atom_indices mol sphericals = Err ValueError
  /\ compute_overlap_and_atomic_orbitals overlap sphericals mol
                                         element_1 element_2
     = Err ValueError.
Proof.
  intros H H1.
  assert (E : make_atom_indices mol sphericals = Err ValueError).
  { unfold make_atom_indices, assign_tail, cumsum.
    rewrite cumsum_from_length.
    destruct (Nat.eqb_spec (length sphericals) (length mol)); [contradiction |].
    destruct sphericals as [| x [| y l]]; simpl; try reflexivity.
    simpl in H1. contradiction. }
  split; [exact E |].
  apply compute_overlap_Err_of_sets. unfold orbital_index_sets.
  rewrite E. reflexivity.
Qed.

Lemma sphericals_length_mismatch_witness :
  make_atom_indices [atom "cd"; atom "se"; atom "cd"] [3; 2] = Err ValueError
  /\ compute_overlap_and_atomic_orbitals (zeros 5 5) [3; 2] [atom "cd"; atom "se"; atom "cd"]
                                         "Cd" "Se"
     = Err ValueError.
Proof.
  apply (sphericals_length_mismatch (zeros 5 5) [atom "cd"; atom "se"; atom "cd"] [3; 2]
                                    "Cd" "Se"); simpl; lia.
Defined.

Close Scope string_scope.

(** ** Further properties of the overlap reduction *)

Section Reduction.

Open Scope R_scope.

Lemma reduce_overlap_value (S : matrix) (idx1 idx2 : list nat) :
  Forall (fun i => (i < nrows S)%nat) idx1 ->
  Forall (fun j => (j < ncols S)%nat) idx2 ->
  reduce_overlap S idx1 idx2
  = Ok (Matrix (length idx2)
               (map (fun i => map (fun j => entry S i j) idx2) idx1)).
Proof.
  intros H1 H2. unfold reduce_overlap, take_rows, take_cols.
  apply forallb_lt in H1. rewrite H1. cbn [bind ncols rows].
  apply forallb_lt in H2. rewrite H2. rewrite map_map. reflexivity.
Qed.

Lemma entry_reduced (S : matrix) (idx1 idx2 : list nat) (a b : nat) :
  (a < length idx1)%nat -> (b < length idx2)%nat ->
  entry (Matrix (length idx2)
                (map (fun i => map (fun j => entry S i j) idx2) idx1)) a b
  = entry S (nth a idx1 0%nat) (nth b idx2 0%nat).
Proof.
  intros Ha Hb. unfold entry at 1. cbn [rows].
  rewrite (nth_map_lt _ idx1 a 0%nat [] Ha).
  rewrite (nth_map_lt _ idx2 b 0%nat 0 Hb). reflexivity.
Qed.

Lemma forallb_lt_false (n : nat) (idx : list nat) :
  (exists i, In i idx /\ (n <= i)%nat) ->
  forallb (fun i => i <? n)%nat idx = false.
Proof.
  intros (i & Hi & Hn).
  destruct (forallb (fun i0 => (i0 <? n)%nat) idx) eqn:F; [| reflexivity].
  rewrite forallb_forall in F. specialize (F i Hi).
  apply Nat.ltb_lt in F. lia.
Qed.

Lemma map_seq_nth {A B : Type} (f : A -> B) (l : list A) (d : A) :
  map f l = map (fun k => f (nth k l d)) (seq 0 (length l)).
Proof.
  induction l as [| x l IH]; [reflexivity |].
  cbn [length seq map nth]. f_equal.
  rewrite <- seq_shift, map_map. exact IH.
Qed.

End Reduction.

Open Scope R_scope.

(** X10. With an overlap matrix of size [sum(sphericals)] the reduction
    cannot go out of bounds: whenever the index construction succeeds, the
    function returns the two index sequences and the block of the overlap
    matrix they select. *)
Theorem compute_overlap_square (overlap : matrix) (mol : atom_list)
        (sphericals : list nat) (element_1 element_2 : string)
        (idx1 idx2 : list nat) :
  length sphericals = length mol ->
  has_shape overlap (list_sum sphericals) (list_sum sphericals) ->
  orbital_index_sets sphericals mol element_1 element_2 = Ok (idx1, idx2) ->
  exists red,
    compute_overlap_and_atomic_orbitals overlap sphericals mol
                                        element_1 element_2
    = Ok (idx1, idx2, red)
    /\ shape red = (length idx1, length idx2)
    /\ forall a b, (a < length idx1)%nat -> (b < length idx2)%nat ->
                   entry red a b
                   = entry overlap (nth a idx1 0%nat) (nth b idx2 0%nat).
Proof.
  intros Hlen (Hr & Hc & _) H.
  destruct (orbital_indices_in_bounds_aux mol sphericals element_1 element_2
                                          idx1 idx2 Hlen H) as [B1 B2].
  eexists. split; [| split].
  - unfold compute_overlap_and_atomic_orbitals. rewrite H. cbn [bind fst snd].
    rewrite reduce_overlap_value by (rewrite ?Hr, ?Hc; assumption).
    reflexivity.
  - unfold shape, nrows. cbn [rows ncols]. rewrite length_map. reflexivity.
  - intros a b Ha Hb. apply entry_reduced; assumption.
Qed.

Lemma compute_overlap_square_witness :
  exists red,
    compute_overlap_and_atomic_orbitals
      (Matrix 2 [[1; 1 / 2]; [1 / 2; 1]]) [1%nat; 1%nat]
      [atom "cd"%string; atom "se"%string] "Cd" "Se"
    = Ok ([0%nat], [1%nat], red)
    /\ shape red = (1%nat, 1%nat)
    /\ entry red 0 0 = 1 / 2.
Proof.
  destruct (compute_overlap_square
              (Matrix 2 [[1; 1 / 2]; [1 / 2; 1]]) [atom "cd"%string; atom "se"%string]
              [1%nat; 1%nat] "Cd" "Se" [0%nat] [1%nat])
    as (red & E & Hs & He).
  - reflexivity.
  - split; [reflexivity | split; [reflexivity | repeat constructor]].
  - reflexivity.
  - exists red. split; [exact E | split; [exact Hs |]].
    rewrite He by (simpl; lia). reflexivity.
Defined.

(** X11. An index at or beyond the size of the overlap matrix makes the
    reduction raise [IndexError]: a row index in the first sequence, or a
    column index in the second. *)
Theorem reduce_overlap_out_of_bounds (S : matrix) (idx1 idx2 : list nat) :
  (exists i, In i idx1 /\ (nrows S <= i)%nat)
  \/ (exists j, In j idx2 /\ (ncols S <= j)%nat) ->
  reduce_overlap S idx1 idx2 = Err IndexError.
Proof.
  intros H. unfold reduce_overlap, take_rows.
  destruct (forallb (fun i => (i <? nrows S)%nat) idx1) eqn:F1;
    [| reflexivity].
  cbn [bind]. unfold take_cols. cbn [ncols rows].
  destruct H as [H | H].
  - rewrite (forallb_lt_false (nrows S) idx1 H) in F1. discriminate.
  - rewrite (forallb_lt_false (ncols S) idx2 H). reflexivity.
Qed.

Lemma reduce_overlap_out_of_bounds_witness :
  reduce_overlap (Matrix 2 [[1; 0]; [0; 1]]) [0%nat] [2%nat] = Err IndexError.
Proof.
  apply (reduce_overlap_out_of_bounds (Matrix 2 [[1; 0]; [0; 1]])
                                      [0%nat] [2%nat]).
  right. exists 2%nat. simpl. split; [auto | lia].
Defined.

(** X12. For a symmetric overlap matrix, reducing with the two index
    sequences exchanged gives the transpose of the reduced matrix, so the
    COOP of element 2 with element 1 is the COOP of element 1 with
    element 2. *)
Theorem coop_symmetric_overlap (S C : matrix) (idx1 idx2 : list nat) :
  symmetric S ->
  Forall (fun i => (i < nrows S)%nat /\ (i < ncols S)%nat) idx1 ->
  Forall (fun j => (j < nrows S)%nat /\ (j < ncols S)%nat) idx2 ->
  exists red12 red21,
    reduce_overlap S idx1 idx2 = Ok red12
    /\ reduce_overlap S idx2 idx1 = Ok red21
    /\ red21 = transpose red12
    /\ compute_coop C red21 idx2 idx1 = compute_coop C red12 idx1 idx2.
Proof.
  intros Hsym H1 H2.
  assert (R1 : Forall (fun i => (i < nrows S)%nat) idx1)
    by (eapply Forall_impl; [| exact H1]; simpl; tauto).
  assert (C1 : Forall (fun i => (i < ncols S)%nat) idx1)
    by (eapply Forall_impl; [| exact H1]; simpl; tauto).
  assert (R2 : Forall (fun i => (i < nrows S)%nat) idx2)
    by (eapply Forall_impl; [| exact H2]; simpl; tauto).
  assert (C2 : Forall (fun i => (i < ncols S)%nat) idx2)
    by (eapply Forall_impl; [| exact H2]; simpl; tauto).
  set (red12 := Matrix (length idx2)
                       (map (fun i => map (fun j => entry S i j) idx2) idx1)).
  set (red21 := Matrix (length idx1)
                       (map (fun j => map (fun i => entry S j i) idx1) idx2)).
  assert (T : red21 = transpose red12).
  { unfold transpose, nrows, red21, red12. cbn [rows ncols].
    rewrite length_map. f_equal.
    rewrite (map_seq_nth _ idx2 0%nat).
    apply map_ext_in. intros b Hb. apply in_seq in Hb.
    rewrite (map_seq_nth _ idx1 0%nat).
    apply map_ext_in. intros a Ha. apply in_seq in Ha.
    rewrite (entry_reduced S idx1 idx2 a b) by lia.
    apply Hsym. }
  exists red12, red21.
  split; [apply reduce_overlap_value; assumption |].
  split; [apply reduce_overlap_value; assumption |].
  split; [exact T |].
  rewrite T. unfold compute_coop, apply_along_axis0.
  destruct (ncols C); [reflexivity |].
  apply mapM_ext. intros col. apply coop_func_swap.
Qed.

Lemma coop_symmetric_overlap_witness :
  exists red12 red21,
    reduce_overlap (Matrix 2 [[1; 1 / 2]; [1 / 2; 1]]) [0%nat] [1%nat] = Ok red12
    /\ reduce_overlap (Matrix 2 [[1; 1 / 2]; [1 / 2; 1]]) [1%nat] [0%nat] = Ok red21
    /\ red21 = transpose red12
    /\ compute_coop (Matrix 1 [[1]; [1]]) red21 [1%nat] [0%nat]
       = compute_coop (Matrix 1 [[1]; [1]]) red12 [0%nat] [1%nat].
Proof.
  apply (coop_symmetric_overlap (Matrix 2 [[1; 1 / 2]; [1 / 2; 1]])
                                (Matrix 1 [[1]; [1]]) [0%nat] [1%nat]).
  - intros i j. unfold entry. cbn [rows].
    do 3 (try destruct i as [| i]); do 3 (try destruct j as [| j]);
      reflexivity.
  - repeat constructor.
  - repeat constructor.
Defined.

(** ** Further properties of the contraction *)

Section ContractionMore.

Open Scope R_scope.

Lemma big_sum_scale_l (n : nat) (x : R) (f : nat -> R) :
  big_sum n (fun b => x * f b) = x * big_sum n f.
Proof.
  unfold big_sum. induction (seq 0 n) as [| b l IH]; simpl.
  - ring.
  - rewrite IH. ring.
Qed.

Lemma big_sum_scale_r (n : nat) (x : R) (f : nat -> R) :
  big_sum n (fun b => f b * x) = big_sum n f * x.
Proof.
  rewrite Rmult_comm, <- big_sum_scale_l.
  apply big_sum_ext. intros b _. ring.
Qed.

Lemma take_Err (v : list R) (idx : list nat) :
  (exists i, In i idx /\ (length v <= i)%nat) -> take v idx = Err IndexError.
Proof.
  intros H. unfold take. rewrite (forallb_lt_false (length v) idx H).
  reflexivity.
Qed.

Lemma broadcast_dim_one_r (n : nat) : broadcast_dim n 1 = Ok n.
Proof.
  unfold broadcast_dim.
  destruct (Nat.eqb_spec n 1) as [-> | N]; [reflexivity |].
  reflexivity.
Qed.

Lemma broadcast_dim_incompatible (n m : nat) :
  n <> m -> n <> 1%nat -> m <> 1%nat -> broadcast_dim n m = Err ValueError.
Proof.
  intros A B C. unfold broadcast_dim.
  destruct (Nat.eqb_spec n m); [contradiction |].
  destruct (Nat.eqb_spec n 1); [contradiction |].
  destruct (Nat.eqb_spec m 1); [contradiction | reflexivity].
Qed.

(** The contraction of one column when the shapes are compatible. *)
Lemma coop_func_broadcast (col : list R) (red : matrix) (idx1 idx2 : list nat)
      (r c : nat) :
  Forall (fun i => (i < length col)%nat) idx1 ->
  Forall (fun i => (i < length col)%nat) idx2 ->
  broadcast_dim (length idx1) (nrows red) = Ok r ->
  broadcast_dim (length idx2) (ncols red) = Ok c ->
  coop_func col red idx1 idx2
  = Ok (big_sum r (fun a => big_sum c (fun b =>
          entry_bc (tensordot0 (map (fun i => nth i col 0) idx1)
                               (map (fun i => nth i col 0) idx2)) a b
          * entry_bc red a b))).
Proof.
  intros H1 H2 Hr Hc. unfold coop_func.
  rewrite !take_Ok by assumption. cbn [bind].
  unfold multiply. rewrite nrows_tensordot0. cbn [ncols tensordot0].
  rewrite !length_map, Hr, Hc. cbn [bind].
  unfold sum, big_sum. cbn [rows]. rewrite map_map. reflexivity.
Qed.

Lemma compute_coop_columns (C red : matrix) (idx1 idx2 : list nat)
      (g : nat -> R) :
  (0 < ncols C)%nat ->
  (forall k, coop_func (column C k) red idx1 idx2 = Ok (g k)) ->
  compute_coop C red idx1 idx2 = Ok (map g (seq 0 (ncols C))).
Proof.
  intros Hpos H. unfold compute_coop, apply_along_axis0.
  destruct (ncols C) as [| n]; [lia |].
  apply mapM_Ok. intros k _. apply H.
Qed.

Lemma compute_coop_first_column_Err (C red : matrix) (idx1 idx2 : list nat)
      (e : exception) :
  (0 < ncols C)%nat ->
  coop_func (column C 0) red idx1 idx2 = Err e ->
  compute_coop C red idx1 idx2 = Err e.
Proof.
  intros Hpos H. unfold compute_coop, apply_along_axis0.
  destruct (ncols C) as [| n]; [lia |].
  cbn [seq mapM]. rewrite H. reflexivity.
Qed.

End ContractionMore.

(** X13. The COOP of a level is the bilinear form of the reduced overlap
    matrix on the two gathered coefficient vectors: the entry [k] equals
    the sum over [a] of [coefficients[idx1[a], k]] times the sum over [b] of
    [overlap_reduced[a, b] * coefficients[idx2[b], k]]. *)
Theorem compute_coop_triple_product (C red : matrix) (N_AO N_levels : nat)
        (idx1 idx2 : list nat) :
  has_shape C N_AO N_levels ->
  (0 < N_levels)%nat ->
  has_shape red (length idx1) (length idx2) ->
  Forall (fun i => (i < N_AO)%nat) idx1 ->
  Forall (fun i => (i < N_AO)%nat) idx2 ->
  exists coop,
    compute_coop C red idx1 idx2 = Ok coop
    /\ forall k, (k < N_levels)%nat ->
         nth k coop 0
         = big_sum (length idx1) (fun a =>
             entry C (nth a idx1 0%nat) k
             * big_sum (length idx2) (fun b =>
                 entry red a b * entry C (nth b idx2 0%nat) k)).
Proof.
  intros (Cr & Cc & _) Hpos (Rr & Rc & _) H1 H2.
  eexists. split.
  - apply compute_coop_value; try assumption; rewrite ?Cr, ?Cc; assumption.
  - intros k Hk.
    rewrite (nth_map_lt _ (seq 0 (ncols C)) k 0%nat 0)
      by (rewrite length_seq, Cc; exact Hk).
    rewrite seq_nth by (rewrite Cc; exact Hk). cbn [plus].
    apply big_sum_ext. intros a _.
    rewrite <- big_sum_scale_l.
    apply big_sum_ext. intros b _. ring.
Qed.

Lemma compute_coop_triple_product_witness :
  exists coop,
    compute_coop (Matrix 1 [[1]; [1]]) (Matrix 1 [[1 / 2]]) [0%nat] [1%nat]
    = Ok coop
    /\ nth 0 coop 0 = 1 / 2.
Proof.
  destruct (compute_coop_triple_product
              (Matrix 1 [[1]; [1]]) (Matrix 1 [[1 / 2]]) 2 1 [0%nat] [1%nat])
    as (coop & E & V).
  - split; [reflexivity | split; [reflexivity |]]. repeat constructor.
  - lia.
  - split; [reflexivity | split; [reflexivity |]]. repeat constructor.
  - repeat constructor.
  - repeat constructor.
  - exists coop. split; [exact E |].
    rewrite V by lia. unfold big_sum, entry. simpl. lra.
Defined.

(** X14. With at least one level, an orbital index at or beyond the number
    of rows of the coefficient matrix makes [compute_coop] raise
    [IndexError], whichever of the two sequences holds it. *)
Theorem compute_coop_index_error (C red : matrix) (idx1 idx2 : list nat) :
  (0 < ncols C)%nat ->
  (exists i, (In i idx1 \/ In i idx2) /\ (nrows C <= i)%nat) ->
  compute_coop C red idx1 idx2 = Err IndexError.
Proof.
  intros Hpos (i & Hin & Hi).
  apply compute_coop_first_column_Err; [exact Hpos |].
  unfold coop_func.
  destruct (take_cases (column C 0) idx1) as [E1 | E1]; rewrite E1;
    [| reflexivity].
  cbn [bind].
  destruct (take_cases (column C 0) idx2) as [E2 | E2]; rewrite E2;
    [| reflexivity].
  exfalso. destruct Hin as [Hin | Hin].
  - rewrite take_Err in E1; [discriminate |].
    exists i. rewrite column_length. auto.
  - rewrite take_Err in E2; [discriminate |].
    exists i. rewrite column_length. auto.
Qed.

Lemma compute_coop_index_error_witness :
  compute_coop (Matrix 1 [[1]; [1]]) (Matrix 1 [[1 / 2]]) [0%nat] [2%nat]
  = Err IndexError.
Proof.
  apply (compute_coop_index_error (Matrix 1 [[1]; [1]]) (Matrix 1 [[1 / 2]])
                                  [0%nat] [2%nat]).
  - simpl. lia.
  - exists 2%nat. unfold nrows. simpl. split; [auto | lia].
Defined.

(** X15. With at least one level and valid indices, [compute_coop] raises
    [ValueError] when an index sequence and the matching axis of the
    reduced overlap matrix have different lengths and neither length is 1:
    the first sequence against the rows, or the second against the
    columns.  (A length of 1 on either side is broadcast instead.) *)
Theorem compute_coop_shape_error (C red : matrix) (idx1 idx2 : list nat) :
  (0 < ncols C)%nat ->
  Forall (fun i => (i < nrows C)%nat) idx1 ->
  Forall (fun i => (i < nrows C)%nat) idx2 ->
  (length idx1 <> nrows red /\ length idx1 <> 1%nat /\ nrows red <> 1%nat)
  \/ (length idx2 <> ncols red /\ length idx2 <> 1%nat /\ ncols red <> 1%nat) ->
  compute_coop C red idx1 idx2 = Err ValueError.
Proof.
  intros Hpos H1 H2 Hbad.
  apply compute_coop_first_column_Err; [exact Hpos |].
  unfold coop_func.
  rewrite !take_Ok by (rewrite column_length; assumption). cbn [bind].
  unfold multiply. rewrite nrows_tensordot0. cbn [ncols tensordot0].
  rewrite !length_map.
  destruct (broadcast_dim (length idx1) (nrows red)) as [r | e] eqn:Br.
  - cbn [bind]. destruct Hbad as [(A & B & D) | (A & B & D)].
    + rewrite broadcast_dim_incompatible in Br by assumption. discriminate.
    + rewrite broadcast_dim_incompatible by assumption. reflexivity.
  - apply broadcast_dim_Err in Br. subst e. reflexivity.
Qed.

Lemma compute_coop_shape_error_witness :
  compute_coop (Matrix 1 [[1]; [1]; [1]])
               (Matrix 2 [[1; 0]; [0; 1]]) [0%nat; 1%nat; 2%nat] [1%nat; 2%nat]
  = Err ValueError.
Proof.
  apply (compute_coop_shape_error (Matrix 1 [[1]; [1]; [1]])
                                  (Matrix 2 [[1; 0]; [0; 1]])
                                  [0%nat; 1%nat; 2%nat] [1%nat; 2%nat]).
  - simpl. lia.
  - repeat constructor.
  - repeat constructor.
  - left. simpl. unfold nrows. simpl. lia.
Defined.

(** X16. The shape of the reduced overlap matrix is not checked against the
    index sequences: a [1 x 1] matrix is broadcast over all pairs of
    orbitals, and the COOP of a level is then its single entry times the
    two sums of gathered coefficients. *)
Theorem compute_coop_broadcast_scalar (C red : matrix) (idx1 idx2 : list nat) :
  (0 < ncols C)%nat ->
  nrows red = 1%nat -> ncols red = 1%nat ->
  Forall (fun i => (i < nrows C)%nat) idx1 ->
  Forall (fun i => (i < nrows C)%nat) idx2 ->
  exists coop,
    compute_coop C red idx1 idx2 = Ok coop
    /\ length coop = ncols C
    /\ forall k, (k < ncols C)%nat ->
         nth k coop 0
         = entry red 0 0
           * big_sum (length idx1) (fun a => entry C (nth a idx1 0%nat) k)
           * big_sum (length idx2) (fun b => entry C (nth b idx2 0%nat) k).
Proof.
  intros Hpos Rr Rc H1 H2.
  set (g := fun k =>
              entry red 0 0
              * big_sum (length idx1) (fun a => entry C (nth a idx1 0%nat) k)
              * big_sum (length idx2) (fun b => entry C (nth b idx2 0%nat) k)).
  exists (map g (seq 0 (ncols C))).
  split; [| split].
  - apply compute_coop_columns; [exact Hpos |]. intros k.
    rewrite (coop_func_broadcast (column C k) red idx1 idx2
                                 (length idx1) (length idx2));
      try (rewrite column_length; assumption);
      try (rewrite ?Rr, ?Rc; apply broadcast_dim_one_r).
    f_equal. unfold g.
    rewrite (Rmult_comm (entry red 0 0)), Rmult_assoc, <- big_sum_scale_r.
    apply big_sum_ext. intros a Ha.
    rewrite <- big_sum_scale_l, <- big_sum_scale_l.
    apply big_sum_ext. intros b Hb.
    rewrite entry_bc_in
      by (rewrite ?nrows_tensordot0; cbn [ncols tensordot0];
          rewrite length_map; assumption).
    rewrite entry_tensordot0.
    rewrite (nth_map_lt _ idx1 a 0%nat 0 Ha), (nth_map_lt _ idx2 b 0%nat 0 Hb).
    rewrite !column_nth.
    unfold entry_bc. rewrite Rr, Rc. cbn [Nat.eqb]. ring.
  - rewrite length_map, length_seq. reflexivity.
  - intros k Hk.
    rewrite (nth_map_lt g (seq 0 (ncols C)) k 0%nat 0)
      by (rewrite length_seq; exact Hk).
    rewrite seq_nth by exact Hk. reflexivity.
Qed.

Lemma compute_coop_broadcast_scalar_witness :
  exists coop,
    compute_coop (Matrix 1 [[1]; [2]; [3]]) (Matrix 1 [[1 / 2]])
                 [0%nat; 1%nat] [1%nat; 2%nat] = Ok coop
    /\ length coop = 1%nat
    /\ nth 0 coop 0 = 15 / 2.
Proof.
  destruct (compute_coop_broadcast_scalar
              (Matrix 1 [[1]; [2]; [3]]) (Matrix 1 [[1 / 2]])
              [0%nat; 1%nat] [1%nat; 2%nat])
    as (coop & E & L & V).
  - simpl. lia.
  - reflexivity.
  - reflexivity.
  - repeat constructor.
  - repeat constructor.
  - exists coop. split; [exact E | split; [exact L |]].
    rewrite V by (simpl; lia). unfold big_sum, entry. simpl. lra.
Defined.

(** ** Further properties of the output and of the whole workflow *)

Section TableMore.

Open Scope R_scope.

Lemma set_column_rows_broadcast (e : R) (coop : list R) :
  set_column_rows (map (fun r => set_nth r 0 e) (repeat [0; 0] (length coop)))
                  1 coop
  = map (fun c => [e; c]) coop.
Proof.
  induction coop as [| c cs IH]; simpl; [| rewrite IH]; reflexivity.
Qed.

Lemma set_column_mismatch (M : matrix) (j : nat) (v : list R) :
  length v <> nrows M -> length v <> 1%nat ->
  set_column M j v = Err ValueError.
Proof.
  intros H H1. unfold set_column.
  destruct (Nat.eqb_spec (length v) (nrows M)); [contradiction |].
  destruct v as [| x [| y l]]; try reflexivity.
  simpl in H1. contradiction.
Qed.

Lemma set_column_single (M : matrix) (j : nat) (x : R) :
  nrows M <> 1%nat ->
  set_column M j [x]
  = Ok (Matrix (ncols M) (map (fun r => set_nth r j x) (rows M))).
Proof.
  intros H. unfold set_column. cbn [length].
  destruct (Nat.eqb_spec 1 (nrows M)); [congruence | reflexivity].
Qed.

Lemma set_column_full (M : matrix) (j : nat) (v : list R) :
  length v = nrows M ->
  set_column M j v = Ok (Matrix (ncols M) (set_column_rows (rows M) j v)).
Proof.
  intros H. unfold set_column. rewrite H, Nat.eqb_refl. reflexivity.
Qed.

Lemma nrows_zeros (n m : nat) : nrows (zeros n m) = n.
Proof. unfold nrows, zeros. cbn [rows]. apply repeat_length. Qed.

End TableMore.

(** X17. Energies and COOP values of different lengths cannot be paired:
    unless there is exactly one energy, [print_coop] raises [ValueError]
    and writes nothing. *)
Theorem print_coop_length_mismatch (energies coop : list R) (fs : filesystem) :
  length energies <> length coop ->
  length energies <> 1%nat ->
  print_coop energies coop fs = Err ValueError.
Proof.
  intros H H1. unfold print_coop.
  rewrite set_column_mismatch by (rewrite ?nrows_zeros; assumption).
  reflexivity.
Qed.

Lemma print_coop_length_mismatch_witness :
  print_coop [1; 2; 3] [4; 5] (Filesystem (fun _ => true) []) = Err ValueError.
Proof.
  apply (print_coop_length_mismatch [1; 2; 3] [4; 5]); simpl; lia.
Defined.

(** X18. When the output file cannot be written, [print_coop] raises the
    error of [np.savetxt] and returns no table, even though the table was
    built. *)
Theorem print_coop_unwritable (energies coop : list R) (fs : filesystem) :
  length energies = length coop ->
  writable fs "COOP.txt" = false ->
  print_coop energies coop fs = Err OSError.
Proof.
  intros H W. unfold print_coop.
  pose proof (print_coop_table energies coop H) as T.
  destruct (set_column (zeros (length coop) 2) 0 energies) as [a | e];
    cbn [bind] in *; [| discriminate].
  rewrite T. cbn [bind]. unfold savetxt. rewrite W. reflexivity.
Qed.

Lemma print_coop_unwritable_witness :
  print_coop [1; 2] [3; 4] (Filesystem (fun _ => false) []) = Err OSError.
Proof.
  apply (print_coop_unwritable [1; 2] [3; 4]); reflexivity.
Defined.

(** X19. A single energy is accepted with any number of COOP values: it is
    broadcast to every row of the table. *)
Theorem print_coop_single_energy (e : R) (coop : list R) (fs : filesystem) :
  writable fs "COOP.txt" = true ->
  exists table,
    print_coop [e] coop fs
    = Ok (table, Filesystem (writable fs)
                            (("COOP.txt"%string, table) :: files fs))
    /\ ncols table = 2%nat
    /\ rows table = map (fun c => [e; c]) coop.
Proof.
  intros W.
  exists (Matrix 2 (map (fun c => [e; c]) coop)).
  split; [| split; reflexivity].
  unfold print_coop.
  assert (E : (a <- set_column (zeros (length coop) 2) 0 [e] ;;
               set_column a 1 coop)
              = Ok (Matrix 2 (map (fun c => [e; c]) coop))).
  { destruct coop as [| c [| c' cs]].
    - reflexivity.
    - reflexivity.
    - rewrite set_column_single by (rewrite nrows_zeros; discriminate).
      cbn [bind].
      rewrite set_column_full
        by (unfold nrows, zeros; cbn [rows];
            rewrite length_map, repeat_length; reflexivity).
      unfold zeros. cbn [rows ncols repeat].
      rewrite (set_column_rows_broadcast e (c :: c' :: cs)). reflexivity. }
  destruct (set_column (zeros (length coop) 2) 0 [e]) as [a | x];
    cbn [bind] in *; [| discriminate].
  rewrite E. cbn [bind]. unfold savetxt. rewrite W. reflexivity.
Qed.

Lemma print_coop_single_energy_witness :
  exists table,
    print_coop [7] [3; 4; 5] (Filesystem (fun _ => true) [])
    = Ok (table, Filesystem (fun _ => true) [("COOP.txt"%string, table)])
    /\ ncols table = 2%nat
    /\ rows table = [[7; 3]; [7; 4]; [7; 5]].
Proof.
  apply (print_coop_single_energy 7 [3; 4; 5] (Filesystem (fun _ => true) [])).
  reflexivity.
Defined.

(** X21. The whole workflow on consistent inputs. With an overlap matrix of
    size [N_AO = sum(sphericals)], a coefficient matrix of shape
    [N_AO x N_levels] with at least one level, one eigenvalue per level, two
    labels for which the index construction succeeds and a writable output
    file, the workflow writes and returns the table whose row [k] holds the
    eigenvalue [k] in eV and the sum over all pairs [(a, b)] of
    [coefficients[idx1[a], k] * coefficients[idx2[b], k] * overlap[idx1[a], idx2[b]]]. *)
Theorem workflow_spec (coefficients overlap : matrix) (eigenvalues : list R)
        (sphericals : list nat) (mol : atom_list)
        (element_1 element_2 : string) (fs : filesystem)
        (N_levels : nat) (idx1 idx2 : list nat) :
  length sphericals = length mol ->
  has_shape overlap (list_sum sphericals) (list_sum sphericals) ->
  has_shape coefficients (list_sum sphericals) N_levels ->
  (0 < N_levels)%nat ->
  length eigenvalues = N_levels ->
  orbital_index_sets sphericals mol element_1 element_2 = Ok (idx1, idx2) ->
  writable fs "COOP.txt" = true ->
  exists table,
    workflow_crystal_orbital_overlap_population
      coefficients eigenvalues overlap sphericals mol element_1 element_2 fs
    = Ok (table, Filesystem (writable fs)
                            (("COOP.txt"%string, table) :: files fs))
    /\ has_shape table N_levels 2
    /\ forall k, (k < N_levels)%nat ->
         entry table k 0 = nth k eigenvalues 0 * h2ev
         /\ entry table k 1
            = big_sum (length idx1) (fun a => big_sum (length idx2) (fun b =>
                entry coefficients (nth a idx1 0%nat) k
                * entry coefficients (nth b idx2 0%nat) k
                * entry overlap (nth a idx1 0%nat) (nth b idx2 0%nat))).
Proof.
  intros Hlen (Or & Oc & _) (Cr & Cc & _) Hpos He H W.
  destruct (orbital_indices_in_bounds_aux mol sphericals element_1 element_2
                                          idx1 idx2 Hlen H) as [B1 B2].
  set (red := Matrix (length idx2)
                     (map (fun i => map (fun j => entry overlap i j) idx2) idx1)).
  set (g := fun k =>
              big_sum (length idx1) (fun a => big_sum (length idx2) (fun b =>
                entry coefficients (nth a idx1 0%nat) k
                * entry coefficients (nth b idx2 0%nat) k
                * entry red a b))).
  set (energies := map (fun e => e * h2ev) eigenvalues).
  set (coop := map g (seq 0 (ncols coefficients))).
  set (table := Matrix 2 (map (fun p => [fst p; snd p]) (combine energies coop))).
  assert (Lc : length coop = N_levels)
    by (unfold coop; rewrite length_map, length_seq; exact Cc).
  assert (Le : length energies = N_levels)
    by (unfold energies; rewrite length_map; exact He).
  assert (Lz : length (combine energies coop) = N_levels)
    by (rewrite length_combine; lia).
  exists table. split; [| split].
  - unfold workflow_crystal_orbital_overlap_population,
      get_eigenvalues_coefficients, compute_overlap_and_atomic_orbitals.
    rewrite H. cbn [bind fst snd].
    rewrite reduce_overlap_value by (rewrite ?Or, ?Oc; assumption).
    cbn [bind]. fold red.
    rewrite compute_coop_value;
      try (rewrite ?Cr, ?Cc; assumption);
      try (unfold nrows, red; cbn [rows]; apply length_map);
      try reflexivity.
    cbn [bind]. fold g. fold coop. fold energies.
    unfold print_coop.
    pose proof (print_coop_table energies coop ltac:(lia)) as T.
    destruct (set_column (zeros (length coop) 2) 0 energies) as [a | e];
      cbn [bind] in *; [| discriminate].
    rewrite T. cbn [bind]. fold table. unfold savetxt. rewrite W. reflexivity.
  - split; [unfold nrows, table; cbn [rows]; rewrite length_map; exact Lz |].
    split; [reflexivity |].
    unfold table. cbn [rows]. apply Forall_forall. intros r Hin.
    apply in_map_iff in Hin. destruct Hin as (p & <- & _). reflexivity.
  - intros k Hk. unfold entry at 1 2, table. cbn [rows].
    rewrite (nth_map_lt _ (combine energies coop) k (0, 0) [])
      by (rewrite Lz; exact Hk).
    rewrite combine_nth by lia. cbn [fst snd nth].
    split.
    + unfold energies.
      apply (nth_map_lt (fun e => e * h2ev) eigenvalues k 0 0). lia.
    + unfold coop.
      rewrite (nth_map_lt g (seq 0 (ncols coefficients)) k 0%nat 0)
        by (rewrite length_seq, Cc; exact Hk).
      rewrite seq_nth by (rewrite Cc; exact Hk). cbn [plus]. unfold g.
      apply big_sum_ext. intros a Ha. apply big_sum_ext. intros b Hb.
      unfold red. rewrite entry_reduced by assumption. reflexivity.
Qed.

Lemma workflow_spec_witness :
  exists table,
    workflow_crystal_orbital_overlap_population
      (Matrix 1 [[1]; [1]]) [1] (Matrix 2 [[1; 1 / 2]; [1 / 2; 1]])
      [1%nat; 1%nat] [atom "cd"%string; atom "se"%string] "Cd" "Se"
      (Filesystem (fun _ => true) [])
    = Ok (table, Filesystem (fun _ => true) [("COOP.txt"%string, table)])
    /\ has_shape table 1 2
    /\ entry table 0 0 = h2ev
    /\ entry table 0 1 = 1 / 2.
Proof.
  destruct (workflow_spec
              (Matrix 1 [[1]; [1]]) (Matrix 2 [[1; 1 / 2]; [1 / 2; 1]]) [1]
              [1%nat; 1%nat] [atom "cd"%string; atom "se"%string] "Cd" "Se"
              (Filesystem (fun _ => true) []) 1 [0%nat] [1%nat])
    as (table & E & Hs & V).
  - reflexivity.
  - split; [reflexivity | split; [reflexivity | repeat constructor]].
  - split; [reflexivity | split; [reflexivity | repeat constructor]].
  - lia.
  - reflexivity.
  - reflexivity.
  - reflexivity.
  - exists table. split; [exact E | split; [exact Hs |]].
    destruct (V 0%nat ltac:(lia)) as [V0 V1].
    rewrite V0, V1. unfold big_sum, entry. simpl. split; lra.
Defined.

(** X22. An element without orbitals contributes nothing: when one of the
    two index sequences is empty, every COOP value is 0. *)
Theorem compute_coop_empty_indices (C red : matrix) (N_AO N_levels : nat)
        (idx1 idx2 : list nat) :
  has_shape C N_AO N_levels ->
  (0 < N_levels)%nat ->
  has_shape red (length idx1) (length idx2) ->
  Forall (fun i => (i < N_AO)%nat) idx1 ->
  Forall (fun i => (i < N_AO)%nat) idx2 ->
  idx1 = [] \/ idx2 = [] ->
  compute_coop C red idx1 idx2 = Ok (repeat 0 N_levels).
Proof.
  intros (Cr & Cc & _) Hpos (Rr & Rc & _) H1 H2 Hempty.
  rewrite compute_coop_value; try assumption;
    try (rewrite ?Cr, ?Cc; assumption).
  f_equal. rewrite Cc.
  assert (Z : forall k,
             big_sum (length idx1) (fun a => big_sum (length idx2) (fun b =>
               entry C (nth a idx1 0%nat) k * entry C (nth b idx2 0%nat) k
               * entry red a b)) = 0).
  { intros k. destruct Hempty as [-> | ->].
    - reflexivity.
    - unfold big_sum. cbn [length seq map sum_list fold_right].
      apply sum_list_zero. }
  replace (repeat 0 N_levels) with (repeat 0 (length (seq 0 N_levels)))
    by (rewrite length_seq; reflexivity).
  induction (seq 0 N_levels) as [| k l IH]; [reflexivity |].
  cbn [map length repeat]. rewrite Z, IH. reflexivity.
Qed.

Lemma compute_coop_empty_indices_witness :
  compute_coop (Matrix 2 [[1; 2]; [3; 4]]) (Matrix 1 []) [] [1%nat]
  = Ok [0; 0].
Proof.
  apply (compute_coop_empty_indices (Matrix 2 [[1; 2]; [3; 4]]) (Matrix 1 [])
                                    2 2 [] [1%nat]).
  - split; [reflexivity | split; [reflexivity |]]. repeat constructor.
  - lia.
  - split; [reflexivity | split; [reflexivity |]]. constructor.
  - constructor.
  - repeat constructor.
  - left. reflexivity.
Defined.

(** X23. Selecting every row and every column, in order, gives the overlap
    matrix back: the reduction only selects, it never changes an entry. *)
Theorem reduce_overlap_identity (S : matrix) (N : nat) :
  has_shape S N N ->
  reduce_overlap S (seq 0 N) (seq 0 N) = Ok S.
Proof.
  intros (Hr & Hc & Hrows).
  rewrite reduce_overlap_value
    by (apply Forall_forall; intros i Hi; apply in_seq in Hi; lia).
  f_equal. destruct S as [c rs]. unfold nrows in Hr. cbn [ncols rows] in *.
  rewrite length_seq. subst c. f_equal.
  transitivity (map (fun r : list R => r) rs); [| apply map_id].
  rewrite (map_seq_nth (fun r : list R => r) rs []).
  rewrite Hr. apply map_ext_in. intros i Hi. apply in_seq in Hi.
  unfold entry. cbn [rows].
  assert (L : length (nth i rs []) = N).
  { rewrite Forall_forall in Hrows. apply Hrows. apply nth_In. lia. }
  transitivity (map (fun x : R => x) (nth i rs [])); [| apply map_id].
  rewrite (map_seq_nth (fun x : R => x) (nth i rs []) 0%R).
  rewrite L. reflexivity.
Qed.

Lemma reduce_overlap_identity_witness :
  reduce_overlap (Matrix 2 [[1; 1 / 2]; [1 / 2; 1]]) [0%nat; 1%nat] [0%nat; 1%nat]
  = Ok (Matrix 2 [[1; 1 / 2]; [1 / 2; 1]]).
Proof.
  apply (reduce_overlap_identity (Matrix 2 [[1; 1 / 2]; [1 / 2; 1]]) 2).
  split; [reflexivity | split; [reflexivity | repeat constructor]].
Defined.
